(** * Isaac aligner: mapping quality, workflow states, reference metadata
      and match-finder statistics

    A shallow embedding of
    - [c++/include/alignment/Quality.hh] (the integer functions and the
      table accessors; the functions that compute on [double], through
      [log], [log10], [exp] and [pow], are left out),
    - [c++/lib/workflow/AlignWorkflow.cpp] ([getNextState], [step], [run],
      [cleanupIntermediary], [rewind]),
    - [c++/include/reference/SortedReferenceMetadata.hh] (constants,
      [Contig], constructor, the contig list and its filters, genome
      lengths, [genomicOffsetToPosition], annotations, mask files),
    - [c++/include/statistics/MatchFinderTileStats.hh],
    followed by the properties established about them.

    Conventions.  A C++ [unsigned] is a [Z] in [0, 2^32), an [unsigned char]
    a [Z] in [0, 2^8) and a [uint64_t] a [Z] in [0, 2^64); every implicit
    conversion and every wrapping addition of the source is written out.
    [ISAAC_ASSERT_MSG] terminates the process when its condition is false:
    a function that can hit it returns [option], [None] standing for the
    termination. *)

From stdpp Require Import base option numbers list strings gmap.
From Equations Require Import Equations.

Local Open Scope Z_scope.

(** ** Machine integers *)

Module CInt.

Definition UNSIGNED_MODULUS : Z := 2 ^ 32.
Definition UCHAR_MODULUS : Z := 2 ^ 8.
Definition UINT64_MODULUS : Z := 2 ^ 64.

(** Conversion of an integer value to [unsigned], [unsigned char], [uint64_t]. *)
Definition to_unsigned (z : Z) : Z := z `mod` UNSIGNED_MODULUS.
Definition to_uchar (z : Z) : Z := z `mod` UCHAR_MODULUS.
Definition to_uint64 (z : Z) : Z := z `mod` UINT64_MODULUS.

(** Values a variable of the type can hold. *)
Definition is_unsigned (z : Z) : Prop := 0 ≤ z < UNSIGNED_MODULUS.
Definition is_uchar (z : Z) : Prop := 0 ≤ z < UCHAR_MODULUS.
Definition is_uint64 (z : Z) : Prop := 0 ≤ z < UINT64_MODULUS.

End CInt.

(** ** alignment/Quality.hh *)

Module Quality.
Import CInt.

Definition REPEAT_ALIGNMENT_SCORE : Z := 3.
(** [-1U] *)
Definition UNKNOWN_ALIGNMENT_SCORE : Z := to_unsigned (-1).
Definition UNKNOWN_MAPQ : Z := 255.
Definition MAX_MAPQ : Z := 60.

(** The assertion macro of [common/Debug.hh]: the process is terminated when
    the condition does not hold. *)
Definition ISAAC_ASSERT_MSG (cond : bool) : option unit :=
  if cond then Some () else None.

Definition isUnique (alignmentScore : Z) : bool :=
  REPEAT_ALIGNMENT_SCORE <? alignmentScore.

(** [std::min<unsigned>] on [MAX_MAPQ] converted to [unsigned]; the result
    is converted to the [unsigned char] return type. *)
Definition alignmentScoreToMapq (alignmentScore : Z) : option Z :=
  ISAAC_ASSERT_MSG (negb (UNKNOWN_ALIGNMENT_SCORE =? alignmentScore)) ;;
  Some (to_uchar (Z.min (to_unsigned MAX_MAPQ) alignmentScore)).

Definition pickMapQ (alignmentScore mateAlignmentScore : Z) (properPair : bool)
    (templateAlignmentScore : Z) : option Z :=
  ISAAC_ASSERT_MSG (negb (UNKNOWN_ALIGNMENT_SCORE =? alignmentScore)) ;;
  ISAAC_ASSERT_MSG (negb (UNKNOWN_ALIGNMENT_SCORE =? mateAlignmentScore)) ;;
  ISAAC_ASSERT_MSG (negb (UNKNOWN_ALIGNMENT_SCORE =? templateAlignmentScore)) ;;
  alignmentScoreToMapq
    (if properPair
     then Z.max alignmentScore (Z.min templateAlignmentScore mateAlignmentScore)
     else alignmentScore).

(** Both arguments of [std::min] are [unsigned char] here. *)
Definition pickMapQFromMate (mateMapQ templateAlignmentScore : Z) : option Z :=
  ISAAC_ASSERT_MSG (negb (UNKNOWN_MAPQ =? mateMapQ)) ;;
  ISAAC_ASSERT_MSG (negb (UNKNOWN_ALIGNMENT_SCORE =? templateAlignmentScore)) ;;
  mapq ← alignmentScoreToMapq templateAlignmentScore ;
  Some (Z.min mapq mateMapQ).

(** An alignment score a caller may pass: an [unsigned] other than the
    sentinel. *)
Definition valid_score (s : Z) : Prop :=
  is_unsigned s ∧ s ≠ UNKNOWN_ALIGNMENT_SCORE.

(** A mapping quality a caller may pass: an [unsigned char] other than the
    sentinel. *)
Definition valid_mapq (q : Z) : Prop :=
  is_uchar q ∧ q ≠ UNKNOWN_MAPQ.

(** *** The lookup tables of [class Quality] *)

Section Tables.
(** The tables hold [double] values that the accessors hand through
    unchanged. *)
Context {double : Type}.

(** The three static vectors, filled in [Quality.cpp]. *)
Record QualityTables : Type := mkQualityTables {
  logErrorLookup : list double;
  logMatchLookup : list double;
  logMismatchLookup : list double
}.

(** How an accessor ends: with a table entry, in the termination of a failed
    assertion, or in a read past the end of a vector, which [operator[]]
    does not check. *)
Inductive Lookup : Type :=
  | Entry (value : double)
  | AssertionFailed
  | ReadPastEnd.

(** [v[i]] for an unsigned [i]. *)
Definition subscript (v : list double) (i : Z) : Lookup :=
  match v !! Z.to_nat i with
  | Some value => Entry value
  | None => ReadPastEnd
  end.

(** [std::vector::size]. *)
Definition vector_size (v : list double) : Z := Z.of_nat (length v).

Definition getLogError (tables : QualityTables) (quality : Z) : Lookup :=
  if quality <? vector_size (logErrorLookup tables)
  then subscript (logErrorLookup tables) quality
  else AssertionFailed.

Definition getLogCorrect (tables : QualityTables) (quality : Z) : Lookup :=
  if quality <? vector_size (logMatchLookup tables)
  then subscript (logMatchLookup tables) quality
  else AssertionFailed.

Definition getLogMatch (tables : QualityTables) (quality : Z) : Lookup :=
  getLogCorrect tables quality.

(** The assertion is on the size of [logMatchLookup], the read is from
    [logMismatchLookup]. *)
Definition getLogMismatch (tables : QualityTables) (quality : Z) : Lookup :=
  if quality <? vector_size (logMatchLookup tables)
  then subscript (logMismatchLookup tables) quality
  else AssertionFailed.

End Tables.
Arguments QualityTables double : clear implicits.
Arguments Lookup double : clear implicits.

(** Tables of three, three and two entries, the entries standing for
    doubles. *)
Definition short_mismatch_tables : QualityTables Z :=
  {| logErrorLookup := [0; -23; -46];
     logMatchLookup := [-100; -10; -1];
     logMismatchLookup := [-110; -133] |}.

End Quality.

(** ** statistics/MatchFinderTileStats.hh *)

Module Statistics.
Import CInt.

Record MatchFinderTileStats : Type := mkMatchFinderTileStats {
  uniqueMatchSeeds_ : Z;
  noMatchSeeds_ : Z;
  repeatMatchSeeds_ : Z;
  tooManyRepeatsSeeds_ : Z;
  repeatMatches_ : Z
}.

(** The default constructor. *)
Definition MatchFinderTileStats_ctor : MatchFinderTileStats :=
  {| uniqueMatchSeeds_ := 0; noMatchSeeds_ := 0; repeatMatchSeeds_ := 0;
     tooManyRepeatsSeeds_ := 0; repeatMatches_ := 0 |}.

(** [operator +]: five [uint64_t] compound additions on a copy of [left]. *)
Definition operator_plus (left right : MatchFinderTileStats) : MatchFinderTileStats :=
  {| uniqueMatchSeeds_ := to_uint64 (uniqueMatchSeeds_ left + uniqueMatchSeeds_ right);
     noMatchSeeds_ := to_uint64 (noMatchSeeds_ left + noMatchSeeds_ right);
     repeatMatchSeeds_ := to_uint64 (repeatMatchSeeds_ left + repeatMatchSeeds_ right);
     tooManyRepeatsSeeds_ :=
       to_uint64 (tooManyRepeatsSeeds_ left + tooManyRepeatsSeeds_ right);
     repeatMatches_ := to_uint64 (repeatMatches_ left + repeatMatches_ right) |}.

(** Every counter holds a [uint64_t] value. *)
Definition representable (s : MatchFinderTileStats) : Prop :=
  is_uint64 (uniqueMatchSeeds_ s) ∧ is_uint64 (noMatchSeeds_ s) ∧
  is_uint64 (repeatMatchSeeds_ s) ∧ is_uint64 (tooManyRepeatsSeeds_ s) ∧
  is_uint64 (repeatMatches_ s).

(** The statistics of three tiles; a counter of the second is at the top of
    the [uint64_t] range. *)
Definition tile_1 : MatchFinderTileStats := mkMatchFinderTileStats 5 1 2 0 7.
Definition tile_2 : MatchFinderTileStats :=
  mkMatchFinderTileStats 18446744073709551615 0 3 4 1.
Definition tile_3 : MatchFinderTileStats := mkMatchFinderTileStats 1 1 1 1 1.

End Statistics.

(** ** reference/SortedReferenceMetadata.hh *)

Module Reference.

Definition OLDEST_SUPPORTED_REFERENCE_FORMAT_VERSION : Z := 3.
Definition CURRENT_REFERENCE_FORMAT_VERSION : Z := 9.

(** A [boost::filesystem::path] as the sequence of elements its iterator
    yields; [operator ==] on paths compares these element by element. *)
Definition fs_path : Type := list string.

Definition path_eqb (p q : fs_path) : bool := bool_decide (p = q).

(** [std::string::empty]. *)
Definition empty (s : string) : bool :=
  match s with
  | EmptyString => true
  | String _ _ => false
  end.

Record Contig : Type := mkContig {
  index_ : Z;
  name_ : string;
  decoy_ : bool;
  filePath_ : fs_path;
  offset_ : Z;
  size_ : Z;
  genomicPosition_ : Z;
  totalBases_ : Z;
  acgtBases_ : Z;
  bamSqAs_ : string;
  bamSqUr_ : string;
  bamM5_ : string
}.

(** [Contig::operator ==], [this] first. *)
Definition Contig_operator_eq (this that : Contig) : bool :=
  (index_ this =? index_ that) &&
  String.eqb (name_ this) (name_ that) &&
  Bool.eqb (decoy_ this) (decoy_ that) &&
  ((empty (bamM5_ this) && path_eqb (filePath_ this) (filePath_ that))
   || String.eqb (bamM5_ this) (bamM5_ that)) &&
  (offset_ this =? offset_ that) &&
  (size_ this =? size_ that) &&
  (genomicPosition_ this =? genomicPosition_ that) &&
  (totalBases_ this =? totalBases_ that) &&
  (acgtBases_ this =? acgtBases_ that) &&
  String.eqb (bamSqAs_ this) (bamSqAs_ that) &&
  String.eqb (bamSqUr_ this) (bamSqUr_ that).

Record MaskFile : Type := mkMaskFile {
  path : fs_path;
  maskWidth : Z;
  mask_ : Z;
  kmers : Z
}.

Inductive AnnotationType : Type := Unknown | KUniqueness | KRepeatness.

Record AnnotationFile : Type := mkAnnotationFile {
  type_ : AnnotationType;
  path_ : fs_path;
  k_ : Z
}.

Record SortedReferenceMetadata : Type := mkSortedReferenceMetadata {
  maskFiles_ : gmap Z (list MaskFile);
  annotationFiles_ : list AnnotationFile;
  contigs_ : list Contig;
  formatVersion_ : Z
}.

(** The default constructor: the containers are empty and the format version
    is the current one. *)
Definition SortedReferenceMetadata_ctor : SortedReferenceMetadata :=
  {| maskFiles_ := ∅; annotationFiles_ := []; contigs_ := [];
     formatVersion_ := CURRENT_REFERENCE_FORMAT_VERSION |}.

(** The same contig as two metadata files describe it: the first carries no
    MD5 digest, the second does. *)
Definition chr1_without_digest : Contig :=
  mkContig 0 "chr1" false ["reference"; "genome.fa"] 0 1016 0 1000 990
    EmptyString EmptyString EmptyString.
Definition chr1_with_digest : Contig :=
  mkContig 0 "chr1" false ["reference"; "genome.fa"] 0 1016 0 1000 990
    EmptyString EmptyString "6aef897c3d6ff0c78aff06ac189178dd".

(** *** The contig list *)

(** [Contig()]. *)
Definition Contig_ctor : Contig :=
  mkContig 0 EmptyString false [] 0 0 0 0 0 EmptyString EmptyString EmptyString.

(** [std::count_if]: one pass, counting the elements the predicate accepts. *)
Definition count_if {A : Type} (pred : A → bool) (l : list A) : nat :=
  fold_left (λ n x, if pred x then S n else n) l 0%nat.

(** [std::remove_copy_if] through a [std::back_inserter]: one pass, appending
    to [out] the elements the predicate rejects. *)
Definition remove_copy_if {A : Type} (pred : A → bool) (l out : list A) : list A :=
  fold_left (λ acc x, if pred x then acc else acc ++ [x]) l out.

Definition getContigs (m : SortedReferenceMetadata) : list Contig := contigs_ m.

Definition getContigsCount (m : SortedReferenceMetadata) : nat :=
  length (contigs_ m).

(** [includeContig] is applied to the [index_] of each contig. *)
Definition getFilteredContigsCount (includeContig : Z → bool)
    (m : SortedReferenceMetadata) : nat :=
  count_if (λ contig, includeContig (index_ contig)) (contigs_ m).

Definition getFilteredContigs (includeContig : Z → bool)
    (m : SortedReferenceMetadata) : list Contig :=
  remove_copy_if (λ contig, negb (includeContig (index_ contig))) (contigs_ m) [].

(** [std::accumulate] from [std::size_t(0)] with [std::plus<std::size_t>]. *)
Definition genomeLength (contigList : list Contig) : Z :=
  fold_left (λ sum contig, CInt.to_uint64 (sum + totalBases_ contig)) contigList 0.

Definition getLongestGenomeLength
    (sortedReferenceMetadataList : list SortedReferenceMetadata) : Z :=
  fold_left
    (λ longestGenome sortedReferenceMetadata,
       let xmlContigs := getContigs sortedReferenceMetadata in
       Z.max longestGenome (genomeLength xmlContigs))
    sortedReferenceMetadataList 0.

(** *** Genomic offsets *)

(** What [genomicOffsetToPosition] constructs: [ReferencePosition(contigId,
    position)] or [ReferencePosition(ReferencePosition::NoMatch)].  The class
    is declared in [reference/ReferencePosition.hh]; only the constructor
    arguments are recorded. *)
Inductive ReferencePosition : Type :=
  | Position (contigId position : Z)
  | NoMatch.

(** The loop of [std::upper_bound] on the range of [len] elements that starts
    at index [first]: [comp] is the comparison with the value searched
    already applied to it.  The element in the middle is always inside the
    range, hence inside the vector when the range is (the [None] case is not
    reached then). *)
Equations? upper_bound_loop {A : Type} (comp : A → bool) (l : list A)
    (first len : nat) : nat by wf len lt :=
  upper_bound_loop comp l first 0 := first;
  upper_bound_loop comp l first (S n) with l !! (first + S n / 2)%nat => {
    | Some middle with comp middle => {
      | true := upper_bound_loop comp l first (S n / 2);
      | false := upper_bound_loop comp l (first + S n / 2 + 1) (S n - S n / 2 - 1) };
    | None := first }.
Proof.
  - change ((S n / 2 < S n)%nat). apply Nat.div_lt; lia.
  - lia.
Qed.

(** [std::upper_bound(l.begin(), l.end(), value, comp)], as an index. *)
Definition upper_bound {A : Type} (comp : A → bool) (l : list A) : nat :=
  upper_bound_loop comp l 0 (length l).

(** The iterator [ub - 1] is dereferenced after the assertion
    [contigList.begin() != ub]; the subtraction is one of [uint64_t]. *)
Definition genomicOffsetToPosition (genomicOffset : Z) (contigList : list Contig)
    : option ReferencePosition :=
  let ub := upper_bound (λ contig, genomicOffset <? genomicPosition_ contig) contigList in
  Quality.ISAAC_ASSERT_MSG (negb (ub =? 0)%nat) ;;
  contig ← contigList !! (ub - 1)%nat ;
  if CInt.to_uint64 (genomicOffset - genomicPosition_ contig) <? totalBases_ contig
  then Some (Position (index_ contig)
               (CInt.to_uint64 (genomicOffset - genomicPosition_ contig)))
  else Some NoMatch.

(** The contig list is ordered by [genomicPosition_]. *)
Definition ordered_by_genomicPosition (contigList : list Contig) : Prop :=
  ∀ (i j : nat) (a b : Contig),
    contigList !! i = Some a → contigList !! j = Some b → (i ≤ j)%nat →
    genomicPosition_ a ≤ genomicPosition_ b.

(** *** Annotations *)

#[global] Instance AnnotationType_eq_dec : EqDecision AnnotationType.
Proof. solve_decision. Defined.

(** [std::find_if] with [boost::bind(&AnnotationFile::type_, _1) == type]:
    the first file of the type and its index, if there is one. *)
Definition find_annotation (type : AnnotationType) (files : list AnnotationFile)
    : option (nat * AnnotationFile) :=
  list_find (λ file, type_ file = type) files.

Definition hasAnnotation (type : AnnotationType) (m : SortedReferenceMetadata) : bool :=
  match find_annotation type (annotationFiles_ m) with
  | Some _ => true
  | None => false
  end.

(** Both overloads: the assertion, then the file [find_if] points at; the
    index is where the non-const overload lets the caller write. *)
Definition getAnnotation (type : AnnotationType) (m : SortedReferenceMetadata)
    : option (nat * AnnotationFile) :=
  Quality.ISAAC_ASSERT_MSG (hasAnnotation type m) ;;
  find_annotation type (annotationFiles_ m).

Definition with_annotationFiles (m : SortedReferenceMetadata)
    (files : list AnnotationFile) : SortedReferenceMetadata :=
  {| maskFiles_ := maskFiles_ m; annotationFiles_ := files;
     contigs_ := contigs_ m; formatVersion_ := formatVersion_ m |}.

Definition setAnnotation (type : AnnotationType) (p : fs_path) (k : Z)
    (m : SortedReferenceMetadata) : option SortedReferenceMetadata :=
  if negb (hasAnnotation type m)
  then Some (with_annotationFiles m
               (annotationFiles_ m ++ [mkAnnotationFile type p k]))
  else
    '(i, _) ← getAnnotation type m ;
    Some (with_annotationFiles m
            (<[i := mkAnnotationFile type p k]> (annotationFiles_ m))).

Definition hasKUniquenessAnnotation (m : SortedReferenceMetadata) : bool :=
  hasAnnotation KUniqueness m.
Definition getKUniquenessAnnotation (m : SortedReferenceMetadata)
    : option AnnotationFile :=
  snd <$> getAnnotation KUniqueness m.
Definition setKUniquenessAnnotation (p : fs_path) (k : Z)
    (m : SortedReferenceMetadata) : option SortedReferenceMetadata :=
  setAnnotation KUniqueness p k m.

Definition hasKRepeatnessAnnotation (m : SortedReferenceMetadata) : bool :=
  hasAnnotation KRepeatness m.
Definition getKRepeatnessAnnotation (m : SortedReferenceMetadata)
    : option AnnotationFile :=
  snd <$> getAnnotation KRepeatness m.
Definition setKRepeatnessAnnotation (p : fs_path) (k : Z)
    (m : SortedReferenceMetadata) : option SortedReferenceMetadata :=
  setAnnotation KRepeatness p k m.

Definition clearAnnotations (m : SortedReferenceMetadata) : SortedReferenceMetadata :=
  with_annotationFiles m [].

(** *** Mask files *)

Definition with_maskFiles (m : SortedReferenceMetadata)
    (masks : gmap Z (list MaskFile)) : SortedReferenceMetadata :=
  {| maskFiles_ := masks; annotationFiles_ := annotationFiles_ m;
     contigs_ := contigs_ m; formatVersion_ := formatVersion_ m |}.

Definition supportsSeedLength (seedLength : Z) (m : SortedReferenceMetadata) : bool :=
  bool_decide (is_Some (maskFiles_ m !! seedLength)).

(** The const overload, [std::map::at]: [None] when [std::out_of_range] is
    thrown. *)
Definition getMaskFileList_const (seedLength : Z) (m : SortedReferenceMetadata)
    : option (list MaskFile) :=
  maskFiles_ m !! seedLength.

(** The non-const overload, [std::map::operator[]]: a seed length that has
    no entry gets an empty list; the list referred to and the object after
    the call. *)
Definition getMaskFileList (seedLength : Z) (m : SortedReferenceMetadata)
    : list MaskFile * SortedReferenceMetadata :=
  match maskFiles_ m !! seedLength with
  | Some files => (files, m)
  | None => ([], with_maskFiles m (<[seedLength := []]> (maskFiles_ m)))
  end.

Definition clearMasks (m : SortedReferenceMetadata) : SortedReferenceMetadata :=
  with_maskFiles m ∅.

(** *** A sample reference *)

(** A second contig, laid out after the thousand bases of [chr1]. *)
Definition chr2 : Contig :=
  mkContig 1 "chr2" false ["reference"; "genome.fa"] 1016 508 1000 500 480
    EmptyString EmptyString "b2d6a0c5b7a1b1e0f6a9c0b7e6d5c4b3".

Definition genome : list Contig := [chr1_with_digest; chr2].

(** The same contig, read from another file. *)
Definition Contig_in_file (p : fs_path) (contig : Contig) : Contig :=
  mkContig (index_ contig) (name_ contig) (decoy_ contig) p (offset_ contig)
    (size_ contig) (genomicPosition_ contig) (totalBases_ contig)
    (acgtBases_ contig) (bamSqAs_ contig) (bamSqUr_ contig) (bamM5_ contig).

(** A reference with mask files for seed length 32 and a k-uniqueness
    annotation; the same with a k-repeatness annotation set. *)
Definition sample_reference : SortedReferenceMetadata :=
  {| maskFiles_ := {[ 32 := [mkMaskFile ["reference"; "kmers-32.dat"] 6 0 1500] ]};
     annotationFiles_ :=
       [mkAnnotationFile KUniqueness ["reference"; "k-uniqueness.dat"] 32];
     contigs_ := genome;
     formatVersion_ := CURRENT_REFERENCE_FORMAT_VERSION |}.

Definition annotated_twice : SortedReferenceMetadata :=
  with_annotationFiles sample_reference
    [mkAnnotationFile KUniqueness ["reference"; "k-uniqueness.dat"] 32;
     mkAnnotationFile KRepeatness ["reference"; "k-repeatness.dat"] 40].

End Reference.

(** ** workflow/AlignWorkflow.cpp *)

Module Workflow.

(** The enumerators of [AlignWorkflow::State].  The enum is declared in
    [workflow/AlignWorkflow.hh], outside the files embedded here, so the
    integer each enumerator stands for is a parameter of the model.  A
    [switch] compiles only when its case labels are pairwise different; that
    is all the functions below need to know about the values. *)
Class StateEnum : Type := mkStateEnum {
  Invalid : Z;
  Last : Z;
  Start : Z;
  AlignDone : Z;
  AlignmentReportsDone : Z;
  BamDone : Z;
  Finish : Z
}.

(** The member functions that do the work of a phase. *)
Inductive Phase : Type :=
  | findMatches
  | generateAlignmentReports
  | generateBam
  | cleanupBins.

Inductive Exception : Type :=
  | PreConditionException (message : string)
  | PhaseException (phase : Phase).

(** How a call ends: it returns, an exception leaves it, or an assertion
    terminates the process. *)
Inductive Outcome (A : Type) : Type :=
  | Returned (a : A)
  | Thrown (e : Exception)
  | Terminated.
Arguments Returned {A} a.
Arguments Thrown {A} e.
Arguments Terminated {A}.

(** The part of the object the state functions read and write: the [state_]
    member, and the phase functions called so far, oldest first (the effect
    of a phase is on files, it does not touch [state_]). *)
Record AlignWorkflow : Type := mkAlignWorkflow {
  state_ : Z;
  phasesRun : list Phase
}.

(** A member function: from the object before the call to the outcome and
    the object after it. *)
Definition Method (A : Type) : Type := AlignWorkflow → Outcome A * AlignWorkflow.

#[global] Instance Method_ret : MRet Method := λ A a w, (Returned a, w).

#[global] Instance Method_bind : MBind Method := λ A B f m w,
  match m w with
  | (Returned a, w') => f a w'
  | (Thrown e, w') => (Thrown e, w')
  | (Terminated, w') => (Terminated, w')
  end.

Definition read_state_ : Method Z := λ w, (Returned (state_ w), w).

Definition write_state_ (s : Z) : Method () := λ w,
  (Returned (), {| state_ := s; phasesRun := phasesRun w |}).

Definition BOOST_THROW_EXCEPTION {A : Type} (e : Exception) : Method A := λ w,
  (Thrown e, w).

Definition terminate {A : Type} : Method A := λ w, (Terminated, w).

Definition ISAAC_ASSERT_MSG (cond : bool) : Method () :=
  if cond then mret () else terminate.

(** An [if] without [else]. *)
Definition when_ (cond : bool) (body : Method ()) : Method () :=
  if cond then body else mret ().

Section Methods.
Context {E : StateEnum}.
(** Whether a phase function returns; when it does not, an exception leaves
    it. *)
Variable completes : Phase → bool.
(** Whether [NDEBUG] is defined, which turns [assert] of [<cassert>] off. *)
Variable NDEBUG : bool.

Definition assert (cond : bool) : Method () :=
  if NDEBUG then mret () else ISAAC_ASSERT_MSG cond.

Definition call (p : Phase) : Method () := λ w,
  if completes p
  then (Returned (), {| state_ := state_ w; phasesRun := phasesRun w ++ [p] |})
  else (Thrown (PhaseException p), w).

Definition getNextState : Method Z :=
  s ← read_state_ ;
  if s =? Start then mret AlignDone
  else if s =? AlignDone then mret AlignmentReportsDone
  else if s =? AlignmentReportsDone then mret BamDone
  else if s =? Finish then mret Finish
  else ISAAC_ASSERT_MSG false ;; mret Invalid.

Definition step : Method Z :=
  s ← read_state_ ;
  (if s =? Start then
     call findMatches ;; n ← getNextState ; write_state_ n
   else if s =? AlignDone then
     call generateAlignmentReports ;; n ← getNextState ; write_state_ n
   else if s =? AlignmentReportsDone then
     call generateBam ;; n ← getNextState ; write_state_ n
   else if s =? Finish then
     mret ()
   else ISAAC_ASSERT_MSG false) ;;
  read_state_.

Definition state_is (s : Z) : Method bool :=
  t ← read_state_ ; mret (s =? t).

Definition run : Method () :=
  b ← state_is Start ; ISAAC_ASSERT_MSG b ;;
  step ;;
  b ← state_is AlignDone ; ISAAC_ASSERT_MSG b ;;
  step ;;
  b ← state_is AlignmentReportsDone ; ISAAC_ASSERT_MSG b ;;
  step ;;
  b ← state_is BamDone ; ISAAC_ASSERT_MSG b.

Definition cleanupIntermediary : Method () :=
  s ← read_state_ ;
  if s =? Finish then call cleanupBins
  else if s =? AlignmentReportsDone then mret ()
  else if s =? AlignDone then mret ()
  else if s =? Start then mret ()
  else ISAAC_ASSERT_MSG false.

Definition rewind (to : Z) : Method Z :=
  ret ← read_state_ ;
  (if to =? Last then
     (mret () : Method ())
   else if to =? Start then
     write_state_ Start
   else if to =? AlignDone then
     b ← state_is Start ;
     when_ b (BOOST_THROW_EXCEPTION (PreConditionException
        "Aligner rewind from Start to MatchFinderDone is not possible")) ;;
     write_state_ AlignDone
   else if to =? AlignmentReportsDone then
     b ← state_is Start ;
     when_ b (BOOST_THROW_EXCEPTION (PreConditionException
        "Aligner rewind from Start to MatchSelectorReportsDone is not possible")) ;;
     b ← state_is AlignDone ;
     when_ b (BOOST_THROW_EXCEPTION (PreConditionException
        "Aligner rewind from MatchFinderDone to MatchSelectorReportsDone is not possible")) ;;
     write_state_ AlignmentReportsDone
   else if to =? BamDone then
     b ← state_is Start ;
     when_ b (BOOST_THROW_EXCEPTION (PreConditionException
        "Aligner rewind from Start to BamDone is not possible")) ;;
     b ← state_is AlignDone ;
     when_ b (BOOST_THROW_EXCEPTION (PreConditionException
        "Aligner rewind from MatchFinderDone to BamDone is not possible")) ;;
     b ← state_is AlignmentReportsDone ;
     when_ b (BOOST_THROW_EXCEPTION (PreConditionException
        "Aligner rewind from MatchSelectorDone to BamDone is not possible")) ;;
     write_state_ BamDone
   else assert false) ;;
  mret ret.

(** The case labels of the [switch] of [step] (and of [getNextState]), of
    [cleanupIntermediary] and of [rewind]. *)
Definition step_labels : list Z := [Start; AlignDone; AlignmentReportsDone; Finish].
Definition rewind_labels : list Z :=
  [Last; Start; AlignDone; AlignmentReportsDone; BamDone].

(** How far along the workflow a state is: the number of successful [step]
    calls that lead from [Start] to it. *)
Definition progress (s : Z) : option nat :=
  if s =? Start then Some 0%nat
  else if s =? AlignDone then Some 1%nat
  else if s =? AlignmentReportsDone then Some 2%nat
  else if s =? BamDone then Some 3%nat
  else None.

(** [n] calls of [step] in a row, stopping at the first that does not
    return; the result is that of the last call made. *)
Fixpoint steps (n : nat) : Method Z :=
  match n with
  | O => read_state_
  | S n' => step ;; steps n'
  end.

(** The [switch] statements compile: no two case labels of [step] (and
    [getNextState], [cleanupIntermediary]) share a value, nor do two of
    [rewind]. *)
Definition labels_distinct : Prop := NoDup step_labels ∧ NoDup rewind_labels.

(** A call of [step] in state [from] moves the workflow on to another state
    [to]; a call in state [s] returns and leaves the object as it was. *)
Definition advances (from to : Z) : Prop :=
  from ≠ to ∧
  ∀ l, ∃ l', step {| state_ := from; phasesRun := l |}
             = (Returned to, {| state_ := to; phasesRun := l' |}).

Definition stays (s : Z) : Prop :=
  ∀ l, step {| state_ := s; phasesRun := l |}
       = (Returned s, {| state_ := s; phasesRun := l |}).

(** A chain of five states, Start -> AlignDone -> AlignmentReportsDone ->
    BamDone -> Finish, entered one state per call, the last of which [step]
    leaves unchanged. *)
Definition five_state_chain : Prop :=
  advances Start AlignDone ∧
  advances AlignDone AlignmentReportsDone ∧
  advances AlignmentReportsDone BamDone ∧
  advances BamDone Finish ∧
  stays Finish.

End Methods.

(** The object the constructor leaves: [state_(Start)], no phase run yet. *)
Definition AlignWorkflow_ctor {E : StateEnum} : AlignWorkflow :=
  {| state_ := Start; phasesRun := [] |}.

(** An enumeration with the enumerators numbered in the order of the
    workflow and [Finish] naming the value of [BamDone]: the choice under
    which [run], whose last assertion is [BamDone == state_], leaves a state
    that [cleanupIntermediary] and a further [step] accept. *)
Definition finish_is_BamDone : StateEnum :=
  {| Invalid := -2; Last := -1; Start := 0; AlignDone := 1;
     AlignmentReportsDone := 2; BamDone := 3; Finish := 3 |}.

(** An enumeration with five different workflow states, [Finish] following
    [BamDone]. *)
Definition finish_after_BamDone : StateEnum :=
  {| Invalid := -2; Last := -1; Start := 0; AlignDone := 1;
     AlignmentReportsDone := 2; BamDone := 3; Finish := 4 |}.

(** Every phase function returns. *)
Definition all_complete : Phase → bool := λ _, true.

(** Every phase function returns but [generateAlignmentReports], which an
    exception leaves. *)
Definition reports_fail : Phase → bool := λ p,
  match p with
  | generateAlignmentReports => false
  | _ => true
  end.

End Workflow.

(** * Properties *)

(** ** Mapping quality *)

Module QualityFacts.
Import CInt Quality.

Lemma UNKNOWN_ALIGNMENT_SCORE_value : UNKNOWN_ALIGNMENT_SCORE = 4294967295.
Proof. reflexivity. Qed.

Lemma valid_score_bounds (s : Z) : valid_score s → 0 ≤ s < 4294967295.
Proof.
  intros [[Hlo Hhi] Hne].
  rewrite UNKNOWN_ALIGNMENT_SCORE_value in Hne.
  unfold UNSIGNED_MODULUS in Hhi. lia.
Qed.

Lemma valid_mapq_bounds (q : Z) : valid_mapq q → 0 ≤ q < 255.
Proof.
  intros [[Hlo Hhi] Hne].
  unfold UNKNOWN_MAPQ in Hne. unfold UCHAR_MODULUS in Hhi. lia.
Qed.

Lemma assert_known_score (s : Z) :
  0 ≤ s < 4294967295 →
  Quality.ISAAC_ASSERT_MSG (negb (UNKNOWN_ALIGNMENT_SCORE =? s)) = Some ().
Proof.
  intros Hs. rewrite UNKNOWN_ALIGNMENT_SCORE_value.
  destruct (Z.eqb_spec 4294967295 s) as [Heq | _]; [lia | reflexivity].
Qed.

Lemma assert_known_mapq (q : Z) :
  0 ≤ q < 255 →
  Quality.ISAAC_ASSERT_MSG (negb (UNKNOWN_MAPQ =? q)) = Some ().
Proof.
  intros Hq. unfold UNKNOWN_MAPQ.
  destruct (Z.eqb_spec 255 q) as [Heq | _]; [lia | reflexivity].
Qed.

(** The conversion to [unsigned char] never truncates: the minimum is at
    most 60. *)
Lemma alignmentScoreToMapq_known (s : Z) :
  0 ≤ s < 4294967295 → alignmentScoreToMapq s = Some (Z.min 60 s).
Proof.
  intros Hs. unfold alignmentScoreToMapq.
  rewrite assert_known_score by assumption. simpl.
  f_equal. unfold to_uchar, UCHAR_MODULUS, MAX_MAPQ, to_unsigned, UNSIGNED_MODULUS.
  change (60 `mod` 2 ^ 32) with 60.
  apply Z.mod_small. lia.
Qed.

Lemma pickMapQ_known (a m t : Z) (properPair : bool) :
  0 ≤ a < 4294967295 → 0 ≤ m < 4294967295 → 0 ≤ t < 4294967295 →
  pickMapQ a m properPair t =
    Some (Z.min 60 (if properPair then Z.max a (Z.min t m) else a)).
Proof.
  intros Ha Hm Ht. unfold pickMapQ.
  rewrite !assert_known_score by assumption. simpl.
  apply alignmentScoreToMapq_known.
  destruct properPair; lia.
Qed.

Lemma pickMapQFromMate_known (q t : Z) :
  0 ≤ q < 255 → 0 ≤ t < 4294967295 →
  pickMapQFromMate q t = Some (Z.min (Z.min 60 t) q).
Proof.
  intros Hq Ht. unfold pickMapQFromMate.
  rewrite assert_known_mapq, assert_known_score by assumption. simpl.
  rewrite alignmentScoreToMapq_known by assumption. reflexivity.
Qed.

(** C1.  For a fragment score, a mate score and a template score other than
    the UNKNOWN sentinel, [pickMapQ] returns
    min(60, max(fragmentScore, min(templateScore, mateFragmentScore))) for a
    proper pair and min(60, fragmentScore) otherwise; for a mate MAPQ other
    than UNKNOWN_MAPQ, [pickMapQFromMate] returns
    min(min(60, templateScore), mateMapQ). *)
Theorem pickMapQ_case_analysis
    (fragmentScore mateFragmentScore templateScore mateMapQ : Z) (properPair : bool) :
  valid_score fragmentScore →
  valid_score mateFragmentScore →
  valid_score templateScore →
  valid_mapq mateMapQ →
  pickMapQ fragmentScore mateFragmentScore properPair templateScore =
    Some (if properPair
          then Z.min 60 (Z.max fragmentScore (Z.min templateScore mateFragmentScore))
          else Z.min 60 fragmentScore)
  ∧ pickMapQFromMate mateMapQ templateScore =
    Some (Z.min (Z.min 60 templateScore) mateMapQ).
Proof.
  intros Ha%valid_score_bounds Hm%valid_score_bounds Ht%valid_score_bounds
    Hq%valid_mapq_bounds.
  split.
  - rewrite pickMapQ_known by assumption. destruct properPair; reflexivity.
  - apply pickMapQFromMate_known; assumption.
Qed.

(** A unique fragment (score 10) in a proper pair with a unique mate (70)
    and template (80) is rescued to 60; its shadow mate inherits 20. *)
Lemma pickMapQ_case_analysis_witness :
  pickMapQ 10 70 true 80 = Some 60 ∧ pickMapQFromMate 20 80 = Some 20.
Proof.
  apply (pickMapQ_case_analysis 10 70 80 20 true);
    repeat split; vm_compute; congruence.
Defined.

(** C5.  For scores and a mate MAPQ other than the UNKNOWN sentinels,
    [alignmentScoreToMapq], [pickMapQ] and [pickMapQFromMate] return a value
    in [0, 60]; UNKNOWN_MAPQ is 255, which lies outside that range. *)
Theorem mapq_in_range
    (alignmentScore mateAlignmentScore templateAlignmentScore mateMapQ : Z)
    (properPair : bool) :
  valid_score alignmentScore →
  valid_score mateAlignmentScore →
  valid_score templateAlignmentScore →
  valid_mapq mateMapQ →
  (∃ q, alignmentScoreToMapq alignmentScore = Some q ∧ 0 ≤ q ≤ MAX_MAPQ) ∧
  (∃ q, pickMapQ alignmentScore mateAlignmentScore properPair templateAlignmentScore
          = Some q ∧ 0 ≤ q ≤ MAX_MAPQ) ∧
  (∃ q, pickMapQFromMate mateMapQ templateAlignmentScore = Some q ∧ 0 ≤ q ≤ MAX_MAPQ) ∧
  MAX_MAPQ = 60 ∧ UNKNOWN_MAPQ = 255 ∧ ¬ (0 ≤ UNKNOWN_MAPQ ≤ MAX_MAPQ).
Proof.
  intros Ha%valid_score_bounds Hm%valid_score_bounds Ht%valid_score_bounds
    Hq%valid_mapq_bounds.
  unfold MAX_MAPQ, UNKNOWN_MAPQ.
  repeat split; try lia.
  - eexists. split; [apply alignmentScoreToMapq_known; assumption | lia].
  - eexists. split; [apply pickMapQ_known; assumption | destruct properPair; lia].
  - eexists. split; [apply pickMapQFromMate_known; assumption | lia].
Qed.

Lemma mapq_in_range_witness :
  (∃ q, alignmentScoreToMapq 1000 = Some q ∧ 0 ≤ q ≤ MAX_MAPQ) ∧
  (∃ q, pickMapQ 1000 2 false 4294967294 = Some q ∧ 0 ≤ q ≤ MAX_MAPQ) ∧
  (∃ q, pickMapQFromMate 254 4294967294 = Some q ∧ 0 ≤ q ≤ MAX_MAPQ) ∧
  MAX_MAPQ = 60 ∧ UNKNOWN_MAPQ = 255 ∧ ¬ (0 ≤ UNKNOWN_MAPQ ≤ MAX_MAPQ).
Proof.
  apply (mapq_in_range 1000 2 4294967294 254 false);
    repeat split; vm_compute; congruence.
Defined.

(** C6.  REPEAT_ALIGNMENT_SCORE is 3 and [isUnique] holds exactly of the
    alignment scores above it. *)
Theorem isUnique_iff_above_repeat_score (alignmentScore : Z) :
  REPEAT_ALIGNMENT_SCORE = 3 ∧ (isUnique alignmentScore = true ↔ alignmentScore > 3).
Proof.
  split; [reflexivity |].
  unfold isUnique, REPEAT_ALIGNMENT_SCORE.
  rewrite Z.ltb_lt. lia.
Qed.

(** *** Further properties of the mapping quality functions *)

Lemma alignmentScoreToMapq_None (s : Z) :
  alignmentScoreToMapq s = None ↔ s = UNKNOWN_ALIGNMENT_SCORE.
Proof.
  unfold alignmentScoreToMapq.
  destruct (Z.eqb_spec UNKNOWN_ALIGNMENT_SCORE s) as [Heq | Hne]; cbn.
  - split; [intros _; congruence | reflexivity].
  - split; [discriminate | congruence].
Qed.

(** X1.  The assertions are the only way the three functions fail, and they
    fail exactly on the sentinels: [alignmentScoreToMapq] terminates iff its
    score is UNKNOWN_ALIGNMENT_SCORE, [pickMapQ] iff one of its three scores
    is, [pickMapQFromMate] iff the mate MAPQ is UNKNOWN_MAPQ or the template
    score is UNKNOWN_ALIGNMENT_SCORE.  In particular the score [pickMapQ]
    passes on to [alignmentScoreToMapq] is never the sentinel when its
    arguments are not. *)
Theorem mapq_fails_iff_unknown
    (alignmentScore mateAlignmentScore templateAlignmentScore mateMapQ : Z)
    (properPair : bool) :
  (alignmentScoreToMapq alignmentScore = None ↔
   alignmentScore = UNKNOWN_ALIGNMENT_SCORE) ∧
  (pickMapQ alignmentScore mateAlignmentScore properPair templateAlignmentScore = None ↔
   alignmentScore = UNKNOWN_ALIGNMENT_SCORE ∨
   mateAlignmentScore = UNKNOWN_ALIGNMENT_SCORE ∨
   templateAlignmentScore = UNKNOWN_ALIGNMENT_SCORE) ∧
  (pickMapQFromMate mateMapQ templateAlignmentScore = None ↔
   mateMapQ = UNKNOWN_MAPQ ∨ templateAlignmentScore = UNKNOWN_ALIGNMENT_SCORE).
Proof.
  split; [apply alignmentScoreToMapq_None |]. split.
  - unfold pickMapQ.
    destruct (Z.eqb_spec UNKNOWN_ALIGNMENT_SCORE alignmentScore) as [Ha | Ha]; cbn;
      [split; [intros _; left; congruence | reflexivity] |].
    destruct (Z.eqb_spec UNKNOWN_ALIGNMENT_SCORE mateAlignmentScore) as [Hm | Hm]; cbn;
      [split; [intros _; right; left; congruence | reflexivity] |].
    destruct (Z.eqb_spec UNKNOWN_ALIGNMENT_SCORE templateAlignmentScore) as [Ht | Ht]; cbn;
      [split; [intros _; right; right; congruence | reflexivity] |].
    rewrite alignmentScoreToMapq_None.
    split; [| intros [? | [? | ?]]; congruence].
    destruct properPair; lia.
  - unfold pickMapQFromMate.
    destruct (Z.eqb_spec UNKNOWN_MAPQ mateMapQ) as [Hq | Hq]; cbn;
      [split; [intros _; left; congruence | reflexivity] |].
    destruct (Z.eqb_spec UNKNOWN_ALIGNMENT_SCORE templateAlignmentScore) as [Ht | Ht]; cbn;
      [split; [intros _; right; congruence | reflexivity] |].
    destruct (alignmentScoreToMapq templateAlignmentScore) as [mapq |] eqn:Hmapq; cbn.
    + split; [discriminate | intros [? | ?]; congruence].
    + apply alignmentScoreToMapq_None in Hmapq. congruence.
Qed.

(** X2.  Being part of a proper pair never lowers the mapping quality of a
    fragment: for the same three scores, [pickMapQ] with [properPair] set
    returns at least what it returns without. *)
Theorem proper_pair_never_lowers_mapq
    (alignmentScore mateAlignmentScore templateAlignmentScore : Z) :
  valid_score alignmentScore →
  valid_score mateAlignmentScore →
  valid_score templateAlignmentScore →
  ∃ alone paired,
    pickMapQ alignmentScore mateAlignmentScore false templateAlignmentScore = Some alone ∧
    pickMapQ alignmentScore mateAlignmentScore true templateAlignmentScore = Some paired ∧
    alone ≤ paired.
Proof.
  intros Ha%valid_score_bounds Hm%valid_score_bounds Ht%valid_score_bounds.
  do 2 eexists.
  split; [apply pickMapQ_known; assumption |].
  split; [apply pickMapQ_known; assumption |].
  cbn. lia.
Qed.

Lemma proper_pair_never_lowers_mapq_witness :
  ∃ alone paired,
    pickMapQ 2 45 false 30 = Some alone ∧
    pickMapQ 2 45 true 30 = Some paired ∧
    alone ≤ paired.
Proof.
  apply (proper_pair_never_lowers_mapq 2 45 30);
    repeat split; vm_compute; congruence.
Defined.

(** X3.  [pickMapQ] is monotone: raising the fragment score, the mate score
    or the template score never lowers the mapping quality. *)
Theorem pickMapQ_monotone (a a' m m' t t' : Z) (properPair : bool) :
  valid_score a → valid_score a' → valid_score m → valid_score m' →
  valid_score t → valid_score t' →
  a ≤ a' → m ≤ m' → t ≤ t' →
  ∃ q q',
    pickMapQ a m properPair t = Some q ∧
    pickMapQ a' m' properPair t' = Some q' ∧
    q ≤ q'.
Proof.
  intros Ha%valid_score_bounds Ha'%valid_score_bounds Hm%valid_score_bounds
    Hm'%valid_score_bounds Ht%valid_score_bounds Ht'%valid_score_bounds Hle1 Hle2 Hle3.
  do 2 eexists.
  split; [apply pickMapQ_known; assumption |].
  split; [apply pickMapQ_known; assumption |].
  destruct properPair; lia.
Qed.

Lemma pickMapQ_monotone_witness :
  ∃ q q',
    pickMapQ 2 10 true 20 = Some q ∧
    pickMapQ 2 40 true 25 = Some q' ∧
    q ≤ q'.
Proof.
  apply (pickMapQ_monotone 2 2 10 40 20 25 true);
    repeat split; vm_compute; congruence.
Defined.

(** X4.  The rescue rule of the comment in [pickMapQ]: the mapping quality
    exceeds REPEAT_ALIGNMENT_SCORE exactly when the fragment is unique by
    itself, or the pair is proper and both the template and the mate are
    unique. *)
Theorem pickMapQ_rescue_rule
    (alignmentScore mateAlignmentScore templateAlignmentScore : Z) (properPair : bool) :
  valid_score alignmentScore →
  valid_score mateAlignmentScore →
  valid_score templateAlignmentScore →
  ∃ mapq,
    pickMapQ alignmentScore mateAlignmentScore properPair templateAlignmentScore
      = Some mapq ∧
    (REPEAT_ALIGNMENT_SCORE < mapq ↔
     isUnique alignmentScore = true ∨
     (properPair = true ∧ isUnique templateAlignmentScore = true ∧
      isUnique mateAlignmentScore = true)).
Proof.
  intros Ha%valid_score_bounds Hm%valid_score_bounds Ht%valid_score_bounds.
  eexists. split; [apply pickMapQ_known; assumption |].
  unfold isUnique, REPEAT_ALIGNMENT_SCORE. rewrite !Z.ltb_lt.
  destruct properPair; split.
  - intros H. destruct (decide (3 < alignmentScore)); [left; assumption |].
    right. split; [reflexivity |]. lia.
  - intros [H | (_ & H1 & H2)]; lia.
  - intros H. left. lia.
  - intros [H | (Hfalse & _)]; [lia | discriminate].
Qed.

(** A repeat fragment (score 3) beside a unique mate in a unique proper
    pair. *)
Lemma pickMapQ_rescue_rule_witness :
  ∃ mapq,
    pickMapQ 3 50 true 40 = Some mapq ∧
    (REPEAT_ALIGNMENT_SCORE < mapq ↔
     isUnique 3 = true ∨ (true = true ∧ isUnique 40 = true ∧ isUnique 50 = true)).
Proof.
  apply (pickMapQ_rescue_rule 3 50 40 true);
    repeat split; vm_compute; congruence.
Defined.

(** X5.  What [pickMapQ] returns for one read is always accepted by
    [pickMapQFromMate] as the mate MAPQ of its shadow (it is never
    UNKNOWN_MAPQ), and the shadow then gets the smaller of that MAPQ and the
    template score. *)
Theorem pickMapQ_feeds_pickMapQFromMate
    (alignmentScore mateAlignmentScore templateAlignmentScore : Z) (properPair : bool) :
  valid_score alignmentScore →
  valid_score mateAlignmentScore →
  valid_score templateAlignmentScore →
  ∃ mapq,
    pickMapQ alignmentScore mateAlignmentScore properPair templateAlignmentScore
      = Some mapq ∧
    valid_mapq mapq ∧
    pickMapQFromMate mapq templateAlignmentScore
      = Some (Z.min mapq templateAlignmentScore).
Proof.
  intros Ha%valid_score_bounds Hm%valid_score_bounds Ht%valid_score_bounds.
  eexists. split; [apply pickMapQ_known; assumption |].
  assert (Hq : 0 ≤ Z.min 60 (if properPair
                             then Z.max alignmentScore
                                    (Z.min templateAlignmentScore mateAlignmentScore)
                             else alignmentScore) ≤ 60)
    by (destruct properPair; lia).
  split.
  - unfold valid_mapq, is_uchar, UCHAR_MODULUS, UNKNOWN_MAPQ.
    change (2 ^ 8) with 256. lia.
  - rewrite pickMapQFromMate_known by lia. f_equal. lia.
Qed.

Lemma pickMapQ_feeds_pickMapQFromMate_witness :
  ∃ mapq,
    pickMapQ 1000 7 false 12 = Some mapq ∧
    valid_mapq mapq ∧
    pickMapQFromMate mapq 12 = Some (Z.min mapq 12).
Proof.
  apply (pickMapQ_feeds_pickMapQFromMate 1000 7 12 false);
    repeat split; vm_compute; congruence.
Defined.

Section TableFacts.
Context {double : Type}.

(** X6.  [getLogError] and [getLogCorrect] (hence [getLogMatch]) never read
    past the end of their table: a quality at or above the table size fails
    the assertion.  [getLogMismatch] checks the quality against the size of
    [logMatchLookup] and reads [logMismatchLookup]: it never reads past the
    end when the mismatch table is at least as long as the match table, and
    it does, for the quality equal to the mismatch table's size, when that
    table is the shorter one. *)
Theorem table_lookups_guarded (tables : QualityTables double) (quality : Z) :
  0 ≤ quality →
  getLogError tables quality ≠ ReadPastEnd ∧
  getLogCorrect tables quality ≠ ReadPastEnd ∧
  getLogMatch tables quality ≠ ReadPastEnd ∧
  ((length (logMatchLookup tables) ≤ length (logMismatchLookup tables))%nat →
   getLogMismatch tables quality ≠ ReadPastEnd) ∧
  ((length (logMismatchLookup tables) < length (logMatchLookup tables))%nat →
   getLogMismatch tables (vector_size (logMismatchLookup tables)) = ReadPastEnd).
Proof.
  intros Hq.
  assert (Hin : ∀ (v : list double) (i : Z),
            0 ≤ i < vector_size v → subscript v i ≠ ReadPastEnd).
  { intros v i Hi. unfold subscript, vector_size in *.
    destruct (lookup_lt_is_Some_2 v (Z.to_nat i) ltac:(lia)) as [d ->]. discriminate. }
  assert (Hcorrect : getLogCorrect tables quality ≠ ReadPastEnd).
  { unfold getLogCorrect.
    destruct (Z.ltb_spec quality (vector_size (logMatchLookup tables)));
      [apply Hin; lia | discriminate]. }
  unfold getLogMatch, getLogError, getLogMismatch.
  split; [| split; [exact Hcorrect | split; [exact Hcorrect | split]]].
  - destruct (Z.ltb_spec quality (vector_size (logErrorLookup tables)));
      [apply Hin; lia | discriminate].
  - intros Hsizes.
    destruct (Z.ltb_spec quality (vector_size (logMatchLookup tables)));
      [| discriminate].
    apply Hin. unfold vector_size in *. lia.
  - intros Hsizes. unfold vector_size.
    destruct (Z.ltb_spec (Z.of_nat (length (logMismatchLookup tables)))
                (Z.of_nat (length (logMatchLookup tables)))); [| lia].
    unfold subscript. rewrite Nat2Z.id.
    rewrite (lookup_ge_None_2 _ _) by lia. reflexivity.
Qed.

End TableFacts.

(** Tables whose mismatch table is one entry short: quality 2 passes the
    assertion of [getLogMismatch] and is read past the end. *)
Lemma table_lookups_guarded_witness :
  getLogError short_mismatch_tables 1 ≠ ReadPastEnd ∧
  getLogCorrect short_mismatch_tables 1 ≠ ReadPastEnd ∧
  getLogMatch short_mismatch_tables 1 ≠ ReadPastEnd ∧
  getLogMismatch short_mismatch_tables 2 = ReadPastEnd.
Proof.
  destruct (table_lookups_guarded short_mismatch_tables 1 ltac:(lia))
    as (Herror & Hcorrect & Hmatch & _ & Hpast).
  split; [exact Herror |]. split; [exact Hcorrect |]. split; [exact Hmatch |].
  apply Hpast. vm_compute. lia.
Defined.

End QualityFacts.

(** ** Match-finder tile statistics *)

Module StatisticsFacts.
Import CInt Statistics.

(** Wrapping addition of [uint64_t] values. *)
Lemma to_uint64_add_comm (x y : Z) : to_uint64 (x + y) = to_uint64 (y + x).
Proof. f_equal. lia. Qed.

Lemma to_uint64_add_assoc (x y z : Z) :
  to_uint64 (to_uint64 (x + y) + z) = to_uint64 (x + to_uint64 (y + z)).
Proof.
  unfold to_uint64.
  rewrite Zplus_mod_idemp_l, Zplus_mod_idemp_r.
  f_equal. lia.
Qed.

Lemma to_uint64_id (x : Z) : is_uint64 x → to_uint64 x = x.
Proof. intros Hx. apply Z.mod_small. exact Hx. Qed.

Lemma to_uint64_representable (x : Z) : is_uint64 (to_uint64 x).
Proof. apply Z.mod_pos_bound. reflexivity. Qed.

Lemma operator_plus_comm (a b : MatchFinderTileStats) :
  operator_plus a b = operator_plus b a.
Proof.
  unfold operator_plus. f_equal; apply to_uint64_add_comm.
Qed.

Lemma operator_plus_assoc (a b c : MatchFinderTileStats) :
  operator_plus (operator_plus a b) c = operator_plus a (operator_plus b c).
Proof.
  unfold operator_plus. cbn [uniqueMatchSeeds_ noMatchSeeds_ repeatMatchSeeds_
    tooManyRepeatsSeeds_ repeatMatches_].
  f_equal; apply to_uint64_add_assoc.
Qed.

Lemma operator_plus_ctor_r (a : MatchFinderTileStats) :
  representable a → operator_plus a MatchFinderTileStats_ctor = a.
Proof.
  destruct a as [u n r t m]. intros (Hu & Hn & Hr & Ht & Hm). cbn in *.
  unfold operator_plus. cbn.
  rewrite !Z.add_0_r, !to_uint64_id by assumption. reflexivity.
Qed.

Lemma operator_plus_representable (a b : MatchFinderTileStats) :
  representable (operator_plus a b).
Proof. repeat split; apply Z.mod_pos_bound; reflexivity. Qed.

(** C9.  The statistics are five counters, all zero in a default-constructed
    value; [operator +] adds each counter of the right operand to the same
    counter of the left one (as [uint64_t]); the addition is commutative and
    associative and the default-constructed value is its identity. *)
Theorem MatchFinderTileStats_addition (a b c : MatchFinderTileStats) :
  representable a →
  a = mkMatchFinderTileStats (uniqueMatchSeeds_ a) (noMatchSeeds_ a)
        (repeatMatchSeeds_ a) (tooManyRepeatsSeeds_ a) (repeatMatches_ a) ∧
  MatchFinderTileStats_ctor = mkMatchFinderTileStats 0 0 0 0 0 ∧
  uniqueMatchSeeds_ (operator_plus a b)
    = to_uint64 (uniqueMatchSeeds_ a + uniqueMatchSeeds_ b) ∧
  noMatchSeeds_ (operator_plus a b)
    = to_uint64 (noMatchSeeds_ a + noMatchSeeds_ b) ∧
  repeatMatchSeeds_ (operator_plus a b)
    = to_uint64 (repeatMatchSeeds_ a + repeatMatchSeeds_ b) ∧
  tooManyRepeatsSeeds_ (operator_plus a b)
    = to_uint64 (tooManyRepeatsSeeds_ a + tooManyRepeatsSeeds_ b) ∧
  repeatMatches_ (operator_plus a b)
    = to_uint64 (repeatMatches_ a + repeatMatches_ b) ∧
  operator_plus a b = operator_plus b a ∧
  operator_plus (operator_plus a b) c = operator_plus a (operator_plus b c) ∧
  operator_plus a MatchFinderTileStats_ctor = a ∧
  operator_plus MatchFinderTileStats_ctor a = a.
Proof.
  intros Ha.
  split; [destruct a; reflexivity |].
  do 6 (split; [reflexivity |]).
  split; [apply operator_plus_comm |].
  split; [apply operator_plus_assoc |].
  split; [apply operator_plus_ctor_r; exact Ha |].
  rewrite operator_plus_comm. apply operator_plus_ctor_r; exact Ha.
Qed.

(** Adding [tile_2] to [tile_1] wraps the first counter round to 4. *)
Lemma MatchFinderTileStats_addition_witness :
  uniqueMatchSeeds_ (operator_plus tile_1 tile_2) = 4 ∧
  operator_plus tile_1 tile_2 = operator_plus tile_2 tile_1 ∧
  operator_plus (operator_plus tile_1 tile_2) tile_3
    = operator_plus tile_1 (operator_plus tile_2 tile_3) ∧
  operator_plus tile_1 MatchFinderTileStats_ctor = tile_1 ∧
  operator_plus MatchFinderTileStats_ctor tile_1 = tile_1.
Proof.
  assert (H1 : representable tile_1) by (repeat split; vm_compute; congruence).
  destruct (MatchFinderTileStats_addition tile_1 tile_2 tile_3 H1)
    as (_ & _ & Hu & _ & _ & _ & _ & Hcomm & Hassoc & Hr & Hl).
  split; [rewrite Hu; reflexivity |].
  split; [exact Hcomm |].
  split; [exact Hassoc |].
  split; [exact Hr | exact Hl].
Defined.

End StatisticsFacts.

(** ** Reference metadata *)

Module ReferenceFacts.
Import Reference.

(** C8.  The oldest supported reference format version is 3, the current one
    is 9, and a freshly constructed [SortedReferenceMetadata] carries the
    current version, 9, which lies in the supported range. *)
Theorem reference_format_versions :
  OLDEST_SUPPORTED_REFERENCE_FORMAT_VERSION = 3 ∧
  CURRENT_REFERENCE_FORMAT_VERSION = 9 ∧
  formatVersion_ SortedReferenceMetadata_ctor = 9 ∧
  OLDEST_SUPPORTED_REFERENCE_FORMAT_VERSION
    ≤ formatVersion_ SortedReferenceMetadata_ctor
    ≤ CURRENT_REFERENCE_FORMAT_VERSION.
Proof.
  repeat split; vm_compute; congruence.
Qed.

Lemma path_eqb_sym (p q : fs_path) : path_eqb p q = path_eqb q p.
Proof. unfold path_eqb. apply bool_decide_ext. split; intros ->; reflexivity. Qed.

Lemma bool_eqb_sym (x y : bool) : Bool.eqb x y = Bool.eqb y x.
Proof. destruct x, y; reflexivity. Qed.

Lemma string_eqb_sym (x y : string) : String.eqb x y = String.eqb y x.
Proof.
  destruct (String.eqb_spec x y) as [-> | Hne].
  - symmetry. apply String.eqb_refl.
  - symmetry. apply String.eqb_neq. congruence.
Qed.

(** Where the comparison does not depend on the order of its operands: the
    two contigs both have a digest, or both have none. *)
Lemma Contig_operator_eq_sym_same_digest_presence (a b : Contig) :
  empty (bamM5_ a) = empty (bamM5_ b) →
  Contig_operator_eq a b = Contig_operator_eq b a.
Proof.
  intros Hpresence. unfold Contig_operator_eq.
  rewrite Hpresence.
  rewrite (Z.eqb_sym (index_ a)), (Z.eqb_sym (offset_ a)), (Z.eqb_sym (size_ a)),
    (Z.eqb_sym (genomicPosition_ a)), (Z.eqb_sym (totalBases_ a)),
    (Z.eqb_sym (acgtBases_ a)).
  rewrite (string_eqb_sym (name_ a)), (string_eqb_sym (bamM5_ a)),
    (string_eqb_sym (bamSqAs_ a)), (string_eqb_sym (bamSqUr_ a)).
  rewrite (bool_eqb_sym (decoy_ a)), (path_eqb_sym (filePath_ a)).
  reflexivity.
Qed.

(** C10.  [Contig::operator ==] depends on the order of its operands when
    exactly one contig has an empty [bamM5_]: the contig without a digest
    equals the one with a digest (the file paths agree), the one with a
    digest does not equal the one without. *)
Theorem Contig_operator_eq_not_symmetric :
  Contig_operator_eq chr1_without_digest chr1_with_digest = true ∧
  Contig_operator_eq chr1_with_digest chr1_without_digest = false.
Proof. split; vm_compute; reflexivity. Qed.

(** *** The contig list *)

Lemma genome_ordered : ordered_by_genomicPosition genome.
Proof.
  intros i j a b Ha Hb Hij.
  destruct i as [| [| i]], j as [| [| j]]; cbn in Ha, Hb;
    try discriminate Ha; try discriminate Hb; try lia;
    injection Ha as <-; injection Hb as <-; vm_compute; congruence.
Qed.

Lemma chr2_alone_ordered : ordered_by_genomicPosition [chr2].
Proof.
  intros i j a b Ha Hb Hij.
  destruct i as [| i], j as [| j]; cbn in Ha, Hb;
    try discriminate Ha; try discriminate Hb;
    injection Ha as <-; injection Hb as <-; vm_compute; congruence.
Qed.


Lemma upper_bound_loop_spec {A : Type} (comp : A → bool) (l : list A) (first len : nat) :
  (first + len ≤ length l)%nat →
  (∀ (i j : nat) (x y : A),
     (first ≤ i ≤ j)%nat → (j < first + len)%nat →
     l !! i = Some x → l !! j = Some y → comp x = true → comp y = true) →
  (first ≤ upper_bound_loop comp l first len ≤ first + len)%nat ∧
  (∀ (i : nat) (x : A),
     (first ≤ i < upper_bound_loop comp l first len)%nat →
     l !! i = Some x → comp x = false) ∧
  (∀ (i : nat) (x : A),
     (upper_bound_loop comp l first len ≤ i < first + len)%nat →
     l !! i = Some x → comp x = true).
Proof.
  funelim (upper_bound_loop comp l first len); intros Hrange Hmono.
  - repeat split; intros; lia.
  - apply lookup_ge_None in Heq.
    assert (S n / 2 < S n)%nat by (apply Nat.div_lt; lia). lia.
  - assert (Hhalf : (S n / 2 < S n)%nat) by (apply Nat.div_lt; lia).
    assert (Hsub : (first + S n / 2 ≤ length l)%nat) by lia.
    destruct (H Hsub) as (Hb & Hlo & Hhi);
      [intros i j x y Hij Hj Hx Hy; apply (Hmono i j x y); auto; lia |].
    split; [lia |]. split; [exact Hlo |].
    intros i y Hi Hy.
    destruct (decide (i < first + S n / 2)%nat) as [Hlt | Hge].
    + apply (Hhi i y); [lia | exact Hy].
    + eapply (Hmono (first + S n / 2)%nat i middle y); eauto; lia.
  - assert (Hhalf : (S n / 2 < S n)%nat) by (apply Nat.div_lt; lia).
    assert (Hsub : (first + S n / 2 + 1 + (S n - S n / 2 - 1) ≤ length l)%nat) by lia.
    destruct (H Hsub) as (Hb & Hlo & Hhi);
      [intros i j x y Hij Hj Hx Hy; apply (Hmono i j x y); auto; lia |].
    split; [lia |]. split; [| intros j z Hj Hz; apply (Hhi j z); [lia | exact Hz]].
    intros i y Hi Hy.
    destruct (decide (i ≤ first + S n / 2)%nat) as [Hle | Hgt].
    + destruct (comp y) eqn:Hcy; [| reflexivity].
      rewrite <- Heq. symmetry.
      eapply (Hmono i (first + S n / 2)%nat y middle); eauto; lia.
    + apply (Hlo i y); [lia | exact Hy].
Qed.

Lemma upper_bound_ordered (genomicOffset : Z) (contigList : list Contig) :
  ordered_by_genomicPosition contigList →
  (upper_bound (λ contig, (genomicOffset <? genomicPosition_ contig)%Z) contigList
     ≤ length contigList)%nat ∧
  (∀ (i : nat) (c : Contig),
     (i < upper_bound (λ contig, (genomicOffset <? genomicPosition_ contig)%Z) contigList)%nat →
     contigList !! i = Some c → genomicPosition_ c ≤ genomicOffset) ∧
  (∀ (i : nat) (c : Contig),
     (upper_bound (λ contig, (genomicOffset <? genomicPosition_ contig)%Z) contigList ≤ i)%nat →
     contigList !! i = Some c → genomicOffset < genomicPosition_ c).
Proof.
  intros Hordered. unfold upper_bound.
  destruct (upper_bound_loop_spec
              (λ contig, (genomicOffset <? genomicPosition_ contig)%Z)
              contigList 0 (length contigList)) as (Hb & Hlo & Hhi).
  - lia.
  - intros i j x y Hij Hj Hx Hy Hcomp.
    apply Z.ltb_lt in Hcomp. apply Z.ltb_lt.
    pose proof (Hordered i j x y Hx Hy ltac:(lia)). lia.
  - split; [lia |]. split.
    + intros i c Hi Hc. specialize (Hlo i c ltac:(lia) Hc).
      apply Z.ltb_ge in Hlo. exact Hlo.
    + intros i c Hi Hc. apply lookup_lt_Some in Hc as Hlt.
      specialize (Hhi i c ltac:(lia) Hc). apply Z.ltb_lt in Hhi. exact Hhi.
Qed.

(** The steps of [genomicOffsetToPosition] after the search. *)
Lemma genomicOffsetToPosition_unfold (genomicOffset : Z) (contigList : list Contig) :
  genomicOffsetToPosition genomicOffset contigList =
    match upper_bound (λ contig, (genomicOffset <? genomicPosition_ contig)%Z) contigList with
    | O => None
    | S k =>
        contig ← contigList !! k ;
        Some (if CInt.to_uint64 (genomicOffset - genomicPosition_ contig)
                   <? totalBases_ contig
              then Position (index_ contig)
                     (CInt.to_uint64 (genomicOffset - genomicPosition_ contig))
              else NoMatch)
    end.
Proof.
  unfold genomicOffsetToPosition.
  destruct (upper_bound _ contigList) as [| k]; [reflexivity |].
  cbn. rewrite Nat.sub_0_r.
  destruct (contigList !! k) as [contig |]; [| reflexivity].
  cbn. destruct (_ <? totalBases_ contig); reflexivity.
Qed.

(** X15.  On a contig list ordered by [genomicPosition_], the assertion of
    [genomicOffsetToPosition] fails exactly when no contig starts at or
    before the offset: every contig starts beyond it, which includes the
    empty list. *)
Theorem genomicOffsetToPosition_terminates_iff (genomicOffset : Z) (contigList : list Contig) :
  ordered_by_genomicPosition contigList →
  genomicOffsetToPosition genomicOffset contigList = None ↔
  Forall (λ contig, genomicOffset < genomicPosition_ contig) contigList.
Proof.
  intros Hordered.
  destruct (upper_bound_ordered genomicOffset contigList Hordered) as (Hb & Hlo & Hhi).
  rewrite genomicOffsetToPosition_unfold.
  destruct (upper_bound _ contigList) as [| k] eqn:Hub.
  - split; [intros _ | reflexivity].
    apply Forall_lookup. intros i c Hc. apply (Hhi i c); [lia | exact Hc].
  - destruct (lookup_lt_is_Some_2 contigList k ltac:(lia)) as [c Hc].
    rewrite Hc. cbn. split; [discriminate |].
    intros Hall. rewrite Forall_lookup in Hall.
    specialize (Hall k c Hc). specialize (Hlo k c ltac:(lia) Hc). lia.
Qed.

(** The second contig on its own: offset 999 lies before its start. *)
Lemma genomicOffsetToPosition_terminates_iff_witness :
  genomicOffsetToPosition 999 [chr2] = None ↔
  Forall (λ contig, 999 < genomicPosition_ contig) [chr2].
Proof.
  apply (genomicOffsetToPosition_terminates_iff 999 [chr2]).
  apply chr2_alone_ordered.
Defined.

(** X16.  On a contig list ordered by [genomicPosition_], whatever
    [genomicOffsetToPosition] returns is decided by the last contig that
    starts at or before the offset: the position is that contig's [index_]
    with the distance from its start when the distance is below its
    [totalBases_], and NoMatch otherwise (the offset lies in a gap after the
    contig or past the end of the genome). *)
Theorem genomicOffsetToPosition_result
    (genomicOffset : Z) (contigList : list Contig) (result : ReferencePosition) :
  ordered_by_genomicPosition contigList →
  CInt.is_uint64 genomicOffset →
  Forall (λ contig, CInt.is_uint64 (genomicPosition_ contig)) contigList →
  genomicOffsetToPosition genomicOffset contigList = Some result →
  ∃ (k : nat) (contig : Contig),
    contigList !! k = Some contig ∧
    genomicPosition_ contig ≤ genomicOffset ∧
    (∀ (j : nat) (later : Contig),
       (k < j)%nat → contigList !! j = Some later →
       genomicOffset < genomicPosition_ later) ∧
    result =
      if genomicOffset - genomicPosition_ contig <? totalBases_ contig
      then Position (index_ contig) (genomicOffset - genomicPosition_ contig)
      else NoMatch.
Proof.
  intros Hordered Hoffset Hpositions.
  destruct (upper_bound_ordered genomicOffset contigList Hordered) as (Hb & Hlo & Hhi).
  rewrite genomicOffsetToPosition_unfold.
  destruct (upper_bound _ contigList) as [| k] eqn:Hub; [discriminate |].
  destruct (contigList !! k) as [c |] eqn:Hc; [| discriminate].
  cbn. intros [= <-]. exists k, c.
  specialize (Hlo k c ltac:(lia) Hc).
  rewrite Forall_lookup in Hpositions. specialize (Hpositions k c Hc).
  split; [exact Hc |]. split; [exact Hlo |]. split.
  - intros j later Hj Hlater. apply (Hhi j later); [lia | exact Hlater].
  - unfold CInt.is_uint64 in *. unfold CInt.to_uint64.
    rewrite Z.mod_small by lia. reflexivity.
Qed.

(** Offset 1200 of the two-contig genome is base 200 of [chr2]. *)
Lemma genomicOffsetToPosition_result_witness :
  ∃ (k : nat) (contig : Contig),
    genome !! k = Some contig ∧
    genomicPosition_ contig ≤ 1200 ∧
    (∀ (j : nat) (later : Contig),
       (k < j)%nat → genome !! j = Some later → 1200 < genomicPosition_ later) ∧
    Position 1 200 =
      if 1200 - genomicPosition_ contig <? totalBases_ contig
      then Position (index_ contig) (1200 - genomicPosition_ contig)
      else NoMatch.
Proof.
  apply (genomicOffsetToPosition_result 1200 genome (Position 1 200)).
  - apply genome_ordered.
  - vm_compute. split; congruence.
  - repeat constructor; vm_compute; congruence.
  - vm_compute. reflexivity.
Defined.

(** X17.  Round trip: on an ordered contig list, the genomic offset of base
    [offset] of a contig, that is the contig's [genomicPosition_] plus
    [offset], is translated back to that contig's [index_] and [offset],
    provided the next contig starts beyond it. *)
Theorem genomicOffsetToPosition_round_trip
    (contigList : list Contig) (k : nat) (contig : Contig) (offset : Z) :
  ordered_by_genomicPosition contigList →
  contigList !! k = Some contig →
  0 ≤ offset < totalBases_ contig →
  CInt.is_uint64 (genomicPosition_ contig) →
  CInt.is_uint64 (genomicPosition_ contig + offset) →
  (∀ next, contigList !! S k = Some next →
           genomicPosition_ contig + offset < genomicPosition_ next) →
  genomicOffsetToPosition (genomicPosition_ contig + offset) contigList
  = Some (Position (index_ contig) offset).
Proof.
  intros Hordered Hc Hoffset Hposition Hsum Hnext.
  destruct (upper_bound_ordered (genomicPosition_ contig + offset) contigList Hordered)
    as (Hb & Hlo & Hhi).
  rewrite genomicOffsetToPosition_unfold.
  apply lookup_lt_Some in Hc as Hk.
  assert (Hub : upper_bound
                  (λ c, (genomicPosition_ contig + offset <? genomicPosition_ c)%Z)
                  contigList = S k).
  { destruct (decide (upper_bound
                  (λ c, (genomicPosition_ contig + offset <? genomicPosition_ c)%Z)
                  contigList ≤ k)%nat) as [Hle | Hgt].
    - specialize (Hhi k contig Hle Hc). lia.
    - destruct (decide (S k < upper_bound
                  (λ c, (genomicPosition_ contig + offset <? genomicPosition_ c)%Z)
                  contigList)%nat) as [Hlt | Hge]; [| lia].
      destruct (lookup_lt_is_Some_2 contigList (S k) ltac:(lia)) as [next Hn].
      specialize (Hlo (S k) next Hlt Hn). specialize (Hnext next Hn). lia. }
  rewrite Hub, Hc. cbn.
  replace (genomicPosition_ contig + offset - genomicPosition_ contig) with offset by lia.
  unfold CInt.is_uint64 in *. unfold CInt.to_uint64.
  rewrite Z.mod_small by lia.
  destruct (Z.ltb_spec offset (totalBases_ contig)); [reflexivity | lia].
Qed.

Lemma genomicOffsetToPosition_round_trip_witness :
  genomicOffsetToPosition (genomicPosition_ chr2 + 200) genome
  = Some (Position (index_ chr2) 200).
Proof.
  apply (genomicOffsetToPosition_round_trip genome 1 chr2 200).
  - apply genome_ordered.
  - reflexivity.
  - vm_compute. split; congruence.
  - vm_compute. split; congruence.
  - vm_compute. split; congruence.
  - intros next Hnext. discriminate Hnext.
Defined.

(** *** Filtering *)

Lemma count_if_filter {A : Type} (pred : A → bool) (l : list A) :
  count_if pred l = length (filter (λ x, pred x = true) l).
Proof.
  unfold count_if.
  enough (Hgen : ∀ n, fold_left (λ n x, if pred x then S n else n) l n
                      = (n + length (filter (λ x, pred x = true) l))%nat)
    by (rewrite Hgen; reflexivity).
  induction l as [| x l IH]; intros n; cbn [fold_left].
  - rewrite filter_nil. cbn. lia.
  - rewrite IH, filter_cons. destruct (pred x) eqn:Hx.
    + rewrite decide_True by reflexivity. cbn. lia.
    + rewrite decide_False by discriminate. reflexivity.
Qed.

Lemma remove_copy_if_filter {A : Type} (pred : A → bool) (l out : list A) :
  remove_copy_if pred l out = out ++ filter (λ x, pred x = false) l.
Proof.
  unfold remove_copy_if. revert out.
  induction l as [| x l IH]; intros out; cbn [fold_left].
  - rewrite filter_nil, app_nil_r. reflexivity.
  - rewrite IH, filter_cons. destruct (pred x) eqn:Hx.
    + rewrite decide_False by discriminate. reflexivity.
    + rewrite decide_True by reflexivity. rewrite <- app_assoc. reflexivity.
Qed.

Lemma getFilteredContigs_filter (includeContig : Z → bool) (m : SortedReferenceMetadata) :
  getFilteredContigs includeContig m
  = filter (λ contig, includeContig (index_ contig) = true) (contigs_ m).
Proof.
  unfold getFilteredContigs. rewrite remove_copy_if_filter. cbn [app].
  apply list_filter_iff. intros contig.
  destruct (includeContig (index_ contig)); cbn; split; congruence.
Qed.

(** X9.  [getFilteredContigsCount] counts exactly the contigs that
    [getFilteredContigs] returns for the same filter, and never more than
    [getContigsCount]. *)
Theorem getFilteredContigsCount_agrees (includeContig : Z → bool) (m : SortedReferenceMetadata) :
  getFilteredContigsCount includeContig m = length (getFilteredContigs includeContig m) ∧
  (getFilteredContigsCount includeContig m ≤ getContigsCount m)%nat.
Proof.
  unfold getFilteredContigsCount, getContigsCount.
  rewrite getFilteredContigs_filter, count_if_filter.
  split; [reflexivity | apply length_filter].
Qed.

(** X10.  [getFilteredContigs] keeps the contigs whose [index_] the filter
    accepts, all of them and no other, in the order of the contig list. *)
Theorem getFilteredContigs_selects (includeContig : Z → bool) (m : SortedReferenceMetadata) :
  getFilteredContigs includeContig m `sublist_of` getContigs m ∧
  ∀ contig, contig ∈ getFilteredContigs includeContig m ↔
            contig ∈ getContigs m ∧ includeContig (index_ contig) = true.
Proof.
  rewrite getFilteredContigs_filter. unfold getContigs. split.
  - apply sublist_filter.
  - intros contig. rewrite list_elem_of_filter. tauto.
Qed.

(** *** Genome length *)

Lemma genomeLength_from (contigList : list Contig) (start : Z) :
  fold_left (λ sum contig, CInt.to_uint64 (sum + totalBases_ contig)) contigList
    (CInt.to_uint64 start)
  = CInt.to_uint64 (start + foldr (λ contig sum, totalBases_ contig + sum) 0 contigList).
Proof.
  revert start. induction contigList as [| contig contigList IH]; intros start.
  - cbn. f_equal. lia.
  - cbn [fold_left foldr].
    replace (CInt.to_uint64 (CInt.to_uint64 start + totalBases_ contig))
      with (CInt.to_uint64 (start + totalBases_ contig)).
    + rewrite IH. f_equal. lia.
    + unfold CInt.to_uint64. rewrite Zplus_mod_idemp_l. reflexivity.
Qed.

Lemma genomeLength_sum (contigList : list Contig) :
  genomeLength contigList
  = CInt.to_uint64 (foldr (λ contig sum, totalBases_ contig + sum) 0 contigList).
Proof.
  unfold genomeLength.
  change 0 with (CInt.to_uint64 0) at 1.
  rewrite genomeLength_from. reflexivity.
Qed.

(** X11.  The genome length of two contig lists put together is the sum of
    their genome lengths, as a [std::size_t]. *)
Theorem genomeLength_append (front back : list Contig) :
  genomeLength (front ++ back)
  = CInt.to_uint64 (genomeLength front + genomeLength back).
Proof.
  rewrite !genomeLength_sum, foldr_app.
  assert (Hshift : ∀ (l : list Contig) (z : Z),
            foldr (λ contig sum, totalBases_ contig + sum) z l
            = foldr (λ contig sum, totalBases_ contig + sum) 0 l + z).
  { induction l as [| c l IH]; intros z; cbn; [lia | rewrite (IH z); lia]. }
  rewrite Hshift. unfold CInt.to_uint64.
  rewrite <- Zplus_mod. reflexivity.
Qed.

(** X12.  [genomeLength] does not depend on the order of the contigs, also
    when the sum wraps round. *)
Theorem genomeLength_permutation (contigList reordered : list Contig) :
  contigList ≡ₚ reordered → genomeLength contigList = genomeLength reordered.
Proof.
  intros Hperm. rewrite !genomeLength_sum. f_equal.
  induction Hperm as [| c l l' _ IH | c d l | l l' l'' _ IH1 _ IH2]; cbn; lia.
Qed.

Lemma genomeLength_permutation_witness :
  genomeLength [chr2; chr1_with_digest] = genomeLength [chr1_with_digest; chr2].
Proof.
  apply (genomeLength_permutation [chr2; chr1_with_digest] [chr1_with_digest; chr2]).
  apply perm_swap.
Defined.

(** X13.  When the [totalBases_] of the contigs add up to less than 2^64,
    [genomeLength] is their sum. *)
Theorem genomeLength_exact (contigList : list Contig) :
  Forall (λ contig, 0 ≤ totalBases_ contig) contigList →
  foldr Z.add 0 (totalBases_ <$> contigList) < CInt.UINT64_MODULUS →
  genomeLength contigList = foldr Z.add 0 (totalBases_ <$> contigList).
Proof.
  intros Hnonneg Hfits. rewrite genomeLength_sum.
  assert (Hsame : ∀ l : list Contig,
            foldr (λ contig sum, totalBases_ contig + sum) 0 l
            = foldr Z.add 0 (totalBases_ <$> l)).
  { induction l as [| c l IH]; cbn; [reflexivity |].
    rewrite IH. reflexivity. }
  rewrite Hsame. apply Z.mod_small. split; [| exact Hfits].
  clear Hfits Hsame. induction Hnonneg as [| c l Hc _ IH]; cbn; lia.
Qed.

Lemma genomeLength_exact_witness :
  genomeLength genome = foldr Z.add 0 (totalBases_ <$> genome).
Proof.
  apply (genomeLength_exact genome).
  - repeat constructor; vm_compute; congruence.
  - vm_compute. reflexivity.
Defined.

Lemma genomeLength_nonneg (contigList : list Contig) : 0 ≤ genomeLength contigList.
Proof.
  rewrite genomeLength_sum. apply Z.mod_pos_bound. reflexivity.
Qed.

Lemma longest_from (list : list SortedReferenceMetadata) (start : Z) :
  let longest :=
    fold_left (λ longestGenome m, Z.max longestGenome (genomeLength (getContigs m)))
      list start in
  start ≤ longest ∧
  (∀ m, m ∈ list → genomeLength (getContigs m) ≤ longest) ∧
  (longest = start ∨ ∃ m, m ∈ list ∧ longest = genomeLength (getContigs m)).
Proof.
  revert start. induction list as [| m list IH]; intros start; cbn.
  - split; [lia |]. split; [| left; reflexivity].
    intros m Hm. apply elem_of_nil in Hm. contradiction.
  - destruct (IH (Z.max start (genomeLength (getContigs m)))) as (Hge & Hall & Hattained).
    split; [lia |]. split.
    + intros m' Hm'. apply elem_of_cons in Hm' as [-> | Hin]; [lia | auto].
    + destruct Hattained as [Heq | (m' & Hin & Heq)].
      * destruct (Z.max_spec start (genomeLength (getContigs m))) as [[_ Hmax] | [_ Hmax]].
        -- right. exists m. split; [apply list_elem_of_here | congruence].
        -- left. congruence.
      * right. exists m'. split; [apply list_elem_of_further; exact Hin | exact Heq].
Qed.

(** X14.  [getLongestGenomeLength] is the largest [genomeLength] among the
    references: no reference has a longer genome and, unless the list is
    empty, one reference has exactly that length; for the empty list it is
    0. *)
Theorem getLongestGenomeLength_is_maximum (list : list SortedReferenceMetadata) :
  (∀ m, m ∈ list → genomeLength (getContigs m) ≤ getLongestGenomeLength list) ∧
  match list with
  | [] => getLongestGenomeLength list = 0
  | _ :: _ => ∃ m, m ∈ list ∧ getLongestGenomeLength list = genomeLength (getContigs m)
  end.
Proof.
  unfold getLongestGenomeLength.
  destruct (longest_from list 0) as (Hge & Hall & Hattained).
  split; [exact Hall |].
  destruct list as [| m list]; [reflexivity |].
  destruct Hattained as [Heq | Hsome]; [| exact Hsome].
  exists m. split; [apply list_elem_of_here |].
  pose proof (Hall m ltac:(apply list_elem_of_here)) as Hm.
  pose proof (genomeLength_nonneg (getContigs m)).
  cbn in *. lia.
Qed.

(** *** Annotations *)

Lemma find_annotation_Some (type : AnnotationType) (files : list AnnotationFile)
    (i : nat) (file : AnnotationFile) :
  find_annotation type files = Some (i, file) ↔
  files !! i = Some file ∧ type_ file = type ∧
  ∀ (j : nat) (earlier : AnnotationFile),
    files !! j = Some earlier → (j < i)%nat → type_ earlier ≠ type.
Proof.
  unfold find_annotation.
  apply (list_find_Some (λ candidate, type_ candidate = type)).
Qed.

Lemma find_annotation_None (type : AnnotationType) (files : list AnnotationFile) :
  find_annotation type files = None ↔ Forall (λ file, type_ file ≠ type) files.
Proof.
  unfold find_annotation.
  apply (list_find_None (λ candidate, type_ candidate = type)).
Qed.

Lemma hasAnnotation_false (type : AnnotationType) (m : SortedReferenceMetadata) :
  hasAnnotation type m = false ↔ find_annotation type (annotationFiles_ m) = None.
Proof.
  unfold hasAnnotation. destruct (find_annotation _ _); split; congruence.
Qed.

Lemma getAnnotation_find (type : AnnotationType) (m : SortedReferenceMetadata) :
  getAnnotation type m = find_annotation type (annotationFiles_ m).
Proof.
  unfold getAnnotation, hasAnnotation.
  destruct (find_annotation _ _); reflexivity.
Qed.

(** A file of another type, appended or written over a file of another
    type, is not seen by the search. *)
Lemma find_annotation_app_other (type : AnnotationType) (files : list AnnotationFile)
    (file : AnnotationFile) :
  type_ file ≠ type →
  find_annotation type (files ++ [file]) = find_annotation type files.
Proof.
  intros Hother. unfold find_annotation.
  induction files as [| first files IH]; csimpl.
  - rewrite decide_False by exact Hother. reflexivity.
  - case_decide; [reflexivity |]. rewrite IH. reflexivity.
Qed.

Lemma find_annotation_insert_other (type : AnnotationType) (files : list AnnotationFile)
    (i : nat) (old new : AnnotationFile) :
  files !! i = Some old → type_ old ≠ type → type_ new ≠ type →
  find_annotation type (<[i := new]> files) = find_annotation type files.
Proof.
  unfold find_annotation. revert i.
  induction files as [| first files IH]; intros i Hold Hother Hnew; [reflexivity |].
  destruct i as [| i]; csimpl in *.
  - injection Hold as ->.
    rewrite !decide_False by assumption. reflexivity.
  - case_decide; [reflexivity |]. rewrite (IH i) by assumption. reflexivity.
Qed.

(** X18.  Insert then look up: [setAnnotation] always succeeds (the
    assertion of [getAnnotation] it goes through cannot fail), after it the
    reference has an annotation of that type and [getAnnotation] returns
    the file just set, whether the type was new or was overwritten. *)
Theorem setAnnotation_then_getAnnotation
    (type : AnnotationType) (p : fs_path) (k : Z) (m : SortedReferenceMetadata) :
  ∃ m', setAnnotation type p k m = Some m' ∧
        hasAnnotation type m' = true ∧
        snd <$> getAnnotation type m' = Some (mkAnnotationFile type p k).
Proof.
  unfold setAnnotation. rewrite getAnnotation_find.
  destruct (hasAnnotation type m) eqn:Hhas; cbn [negb].
  - unfold hasAnnotation in Hhas.
    destruct (find_annotation type (annotationFiles_ m)) as [[i old] |] eqn:Hfind;
      [| discriminate].
    cbn. eexists. split; [reflexivity |].
    apply find_annotation_Some in Hfind as (Hold & Htype & Hfirst).
    assert (Hnew : find_annotation type
                     (<[i := mkAnnotationFile type p k]> (annotationFiles_ m))
                   = Some (i, mkAnnotationFile type p k)).
    { apply find_annotation_Some. split; [| split; [reflexivity |]].
      - apply list_lookup_insert_eq. eapply lookup_lt_Some; exact Hold.
      - intros j earlier Hj Hlt.
        rewrite list_lookup_insert_ne in Hj by lia. eapply Hfirst; eauto. }
    rewrite getAnnotation_find. unfold hasAnnotation.
    cbn [annotationFiles_ with_annotationFiles]. rewrite Hnew.
    split; reflexivity.
  - apply hasAnnotation_false, find_annotation_None in Hhas.
    eexists. split; [reflexivity |].
    assert (Hnew : find_annotation type
                     (annotationFiles_ m ++ [mkAnnotationFile type p k])
                   = Some (length (annotationFiles_ m), mkAnnotationFile type p k)).
    { apply find_annotation_Some. split; [| split; [reflexivity |]].
      - rewrite lookup_app_r by lia. rewrite Nat.sub_diag. reflexivity.
      - intros j earlier Hj Hlt. rewrite lookup_app_l in Hj by lia.
        rewrite Forall_lookup in Hhas. eapply Hhas; eauto. }
    rewrite getAnnotation_find. unfold hasAnnotation.
    cbn [annotationFiles_ with_annotationFiles]. rewrite Hnew.
    split; reflexivity.
Qed.

(** X19.  [setAnnotation] for one type leaves the annotation of every other
    type as it was (present or not, the same file at the same place), and
    the mask files, the contigs and the format version unchanged. *)
Theorem setAnnotation_keeps_other_types
    (type other : AnnotationType) (p : fs_path) (k : Z)
    (m m' : SortedReferenceMetadata) :
  other ≠ type →
  setAnnotation type p k m = Some m' →
  getAnnotation other m' = getAnnotation other m ∧
  hasAnnotation other m' = hasAnnotation other m ∧
  maskFiles_ m' = maskFiles_ m ∧ contigs_ m' = contigs_ m ∧
  formatVersion_ m' = formatVersion_ m.
Proof.
  intros Hother. unfold setAnnotation. rewrite getAnnotation_find.
  assert (Hsame : ∀ files,
            find_annotation other files = find_annotation other (annotationFiles_ m) →
            getAnnotation other (with_annotationFiles m files) = getAnnotation other m ∧
            hasAnnotation other (with_annotationFiles m files) = hasAnnotation other m).
  { intros files Hfind. rewrite !getAnnotation_find. unfold hasAnnotation.
    cbn [annotationFiles_ with_annotationFiles].
    rewrite Hfind. split; reflexivity. }
  destruct (hasAnnotation type m) eqn:Hhas; cbn [negb].
  - unfold hasAnnotation in Hhas.
    destruct (find_annotation type (annotationFiles_ m)) as [[i old] |] eqn:Hfind;
      [| discriminate].
    cbn. intros [= <-].
    apply find_annotation_Some in Hfind as (Hold & Htype & _).
    destruct (Hsame (<[i := mkAnnotationFile type p k]> (annotationFiles_ m)))
      as [Hget Hhas'].
    { apply (find_annotation_insert_other other _ i old); [exact Hold | | ]; cbn; congruence. }
    repeat split; assumption.
  - intros [= <-].
    destruct (Hsame (annotationFiles_ m ++ [mkAnnotationFile type p k])) as [Hget Hhas'].
    { apply find_annotation_app_other. cbn. congruence. }
    repeat split; assumption.
Qed.

(** A k-repeatness annotation is added to a reference that has a
    k-uniqueness annotation. *)
Lemma setAnnotation_keeps_other_types_witness :
  getAnnotation KUniqueness annotated_twice = getAnnotation KUniqueness sample_reference ∧
  hasAnnotation KUniqueness annotated_twice = hasAnnotation KUniqueness sample_reference ∧
  maskFiles_ annotated_twice = maskFiles_ sample_reference ∧
  contigs_ annotated_twice = contigs_ sample_reference ∧
  formatVersion_ annotated_twice = formatVersion_ sample_reference.
Proof.
  apply (setAnnotation_keeps_other_types KRepeatness KUniqueness
           ["reference"; "k-repeatness.dat"] 40 sample_reference annotated_twice).
  - discriminate.
  - reflexivity.
Defined.

(** X20.  [setAnnotation] keeps at most one annotation file per type: when
    no two files of the reference share a type, none do afterwards; the
    number of files grows by one for a new type and stays for a type that
    was present. *)
Theorem setAnnotation_one_file_per_type
    (type : AnnotationType) (p : fs_path) (k : Z) (m m' : SortedReferenceMetadata) :
  NoDup (type_ <$> annotationFiles_ m) →
  setAnnotation type p k m = Some m' →
  NoDup (type_ <$> annotationFiles_ m') ∧
  length (annotationFiles_ m')
  = (if hasAnnotation type m then length (annotationFiles_ m)
     else S (length (annotationFiles_ m))).
Proof.
  intros Hnodup. unfold setAnnotation. rewrite getAnnotation_find.
  destruct (hasAnnotation type m) eqn:Hhas; cbn [negb].
  - unfold hasAnnotation in Hhas.
    destruct (find_annotation type (annotationFiles_ m)) as [[i old] |] eqn:Hfind;
      [| discriminate].
    cbn. intros [= <-]. cbn.
    apply find_annotation_Some in Hfind as (Hold & Htype & _).
    rewrite length_insert, list_fmap_insert. split; [| reflexivity].
    rewrite list_insert_id; [exact Hnodup |].
    rewrite list_lookup_fmap, Hold. cbn. congruence.
  - intros [= <-]. cbn.
    apply hasAnnotation_false, find_annotation_None in Hhas.
    rewrite length_app, fmap_app. cbn. split; [| lia].
    apply NoDup_app. split; [exact Hnodup |]. split; [| apply NoDup_singleton].
    intros t Ht Hin. apply list_elem_of_singleton in Hin as ->.
    apply list_elem_of_fmap in Ht as (file & Heq & Hfile).
    rewrite Forall_forall in Hhas. specialize (Hhas file Hfile). congruence.
Qed.

Lemma setAnnotation_one_file_per_type_witness :
  NoDup (type_ <$> annotationFiles_ annotated_twice) ∧
  length (annotationFiles_ annotated_twice)
  = (if hasAnnotation KRepeatness sample_reference
     then length (annotationFiles_ sample_reference)
     else S (length (annotationFiles_ sample_reference))).
Proof.
  apply (setAnnotation_one_file_per_type KRepeatness
           ["reference"; "k-repeatness.dat"] 40 sample_reference annotated_twice).
  - apply (bool_decide_unpack _). vm_compute. exact I.
  - reflexivity.
Defined.

(** *** Mask files *)

(** X21.  The non-const [getMaskFileList] makes its seed length supported:
    after the call [supportsSeedLength] holds and the const overload returns
    the same list without throwing; the lists of other seed lengths are
    untouched.  For a seed length that was supported nothing changes; for
    one that was not, where the const overload throws, an empty list is
    entered. *)
Theorem getMaskFileList_inserts
    (seedLength : Z) (m m' : SortedReferenceMetadata) (files : list MaskFile) :
  getMaskFileList seedLength m = (files, m') →
  supportsSeedLength seedLength m' = true ∧
  getMaskFileList_const seedLength m' = Some files ∧
  (∀ other, other ≠ seedLength →
            getMaskFileList_const other m' = getMaskFileList_const other m) ∧
  (if supportsSeedLength seedLength m
   then m' = m ∧ getMaskFileList_const seedLength m = Some files
   else files = [] ∧ getMaskFileList_const seedLength m = None).
Proof.
  unfold getMaskFileList, supportsSeedLength, getMaskFileList_const.
  destruct (maskFiles_ m !! seedLength) as [found |] eqn:Hlookup.
  - intros [= <- <-]. rewrite Hlookup.
    rewrite !bool_decide_eq_true_2 by eauto. auto.
  - intros [= <- <-]. cbn. rewrite lookup_insert_eq.
    rewrite bool_decide_eq_true_2 by eauto.
    repeat split; try reflexivity.
    intros other Hother. apply lookup_insert_ne. congruence.
Qed.

(** Seed length 64 has no mask files in the sample reference. *)
Lemma getMaskFileList_inserts_witness :
  supportsSeedLength 64 (with_maskFiles sample_reference
                           (<[64 := []]> (maskFiles_ sample_reference))) = true ∧
  getMaskFileList_const 64 (with_maskFiles sample_reference
                              (<[64 := []]> (maskFiles_ sample_reference))) = Some [] ∧
  supportsSeedLength 64 sample_reference = false.
Proof.
  destruct (getMaskFileList_inserts 64 sample_reference
              (with_maskFiles sample_reference
                 (<[64 := []]> (maskFiles_ sample_reference))) [] eq_refl)
    as (Hsupported & Hconst & _ & _).
  split; [exact Hsupported |]. split; [exact Hconst |].
  vm_compute. reflexivity.
Defined.

(** *** Contig equality, continued *)

(** X7.  [Contig::operator ==] is reflexive. *)
Theorem Contig_operator_eq_reflexive (contig : Contig) :
  Contig_operator_eq contig contig = true.
Proof.
  unfold Contig_operator_eq, path_eqb.
  rewrite !Z.eqb_refl, !String.eqb_refl, Bool.eqb_reflx.
  rewrite orb_true_r. reflexivity.
Qed.

Lemma empty_true (s : string) : empty s = true ↔ s = EmptyString.
Proof. destruct s; cbn; split; congruence. Qed.

(** X8.  What [Contig::operator ==] compares: two contigs are equal exactly
    when they agree on index, name, decoy flag, offset, size, genomic
    position, total and ACGT bases and the two BAM header strings, and
    either their digests are the same or the left one has no digest and the
    file paths are the same.  So the file paths are looked at only when the
    left contig has no digest and the right one has: contigs with the same
    digest, or both without one, are equal whatever files they are in. *)
Theorem Contig_operator_eq_true_iff (a b : Contig) :
  (Contig_operator_eq a b = true ↔
   index_ a = index_ b ∧ name_ a = name_ b ∧ decoy_ a = decoy_ b ∧
   offset_ a = offset_ b ∧ size_ a = size_ b ∧
   genomicPosition_ a = genomicPosition_ b ∧ totalBases_ a = totalBases_ b ∧
   acgtBases_ a = acgtBases_ b ∧ bamSqAs_ a = bamSqAs_ b ∧
   bamSqUr_ a = bamSqUr_ b ∧
   (bamM5_ a = bamM5_ b ∨ (bamM5_ a = EmptyString ∧ filePath_ a = filePath_ b))) ∧
  ∀ p q : fs_path,
    bamM5_ a = bamM5_ b →
    Contig_operator_eq (Contig_in_file p a) (Contig_in_file q b)
    = Contig_operator_eq a b.
Proof.
  split.
  - unfold Contig_operator_eq, path_eqb.
    rewrite !andb_true_iff, orb_true_iff, andb_true_iff.
    rewrite !Z.eqb_eq, !String.eqb_eq, Bool.eqb_true_iff, empty_true,
      bool_decide_eq_true.
    tauto.
  - intros p q Hdigest. unfold Contig_operator_eq, Contig_in_file.
    cbn [index_ name_ decoy_ filePath_ offset_ size_ genomicPosition_ totalBases_
         acgtBases_ bamSqAs_ bamSqUr_ bamM5_].
    rewrite Hdigest, String.eqb_refl, !orb_true_r. reflexivity.
Qed.

End ReferenceFacts.

(** ** Workflow states *)

Module WorkflowFacts.
Import Workflow.

(** Pairwise disequalities out of a [NoDup] hypothesis on an explicit list. *)
Ltac distinct H :=
  repeat (apply NoDup_cons in H as [? H]);
  repeat match goal with
         | Hn : _ ∉ _ :: _ |- _ => apply not_elem_of_cons in Hn as [? Hn]
         end.

(** Case analysis on every comparison of two states in the goal. *)
Ltac compare_states :=
  repeat match goal with
         | |- context [Z.eqb ?x ?y] =>
             destruct (Z.eqb_spec x y); try congruence
         end;
  try reflexivity.

Section Step.
Context {E : StateEnum}.
Variable completes : Phase → bool.

(** [step] in closed form: the [switch] of [getNextState] takes the branch
    the [switch] of [step] took, [state_] being written only afterwards. *)
Lemma step_unfold (s : Z) (l : list Phase) :
  step completes {| state_ := s; phasesRun := l |} =
    if s =? Start then
      if completes findMatches
      then (Returned AlignDone,
            {| state_ := AlignDone; phasesRun := l ++ [findMatches] |})
      else (Thrown (PhaseException findMatches), {| state_ := s; phasesRun := l |})
    else if s =? AlignDone then
      if completes generateAlignmentReports
      then (Returned AlignmentReportsDone,
            {| state_ := AlignmentReportsDone;
               phasesRun := l ++ [generateAlignmentReports] |})
      else (Thrown (PhaseException generateAlignmentReports),
            {| state_ := s; phasesRun := l |})
    else if s =? AlignmentReportsDone then
      if completes generateBam
      then (Returned BamDone, {| state_ := BamDone; phasesRun := l ++ [generateBam] |})
      else (Thrown (PhaseException generateBam), {| state_ := s; phasesRun := l |})
    else if s =? Finish then (Returned s, {| state_ := s; phasesRun := l |})
    else (Terminated, {| state_ := s; phasesRun := l |}).
Proof.
  unfold step, getNextState, call, mbind, Method_bind, read_state_, write_state_.
  cbn [state_ phasesRun].
  destruct (s =? Start) eqn:HStart.
  { cbn. destruct (completes findMatches); cbn; [rewrite HStart |]; reflexivity. }
  destruct (s =? AlignDone) eqn:HAlignDone.
  { cbn. destruct (completes generateAlignmentReports); cbn;
      [rewrite HStart, HAlignDone |]; reflexivity. }
  destruct (s =? AlignmentReportsDone) eqn:HReports.
  { cbn. destruct (completes generateBam); cbn;
      [rewrite HStart, HAlignDone, HReports |]; reflexivity. }
  destruct (s =? Finish); reflexivity.
Qed.

(** With the labels of the [switch] pairwise different, each branch of the
    closed form is selected by the state it is meant for. *)
Lemma step_at_Start (l : list Phase) :
  NoDup step_labels → completes findMatches = true →
  step completes {| state_ := Start; phasesRun := l |}
  = (Returned AlignDone, {| state_ := AlignDone; phasesRun := l ++ [findMatches] |}).
Proof.
  intros _ Hok. rewrite step_unfold, Z.eqb_refl, Hok. reflexivity.
Qed.

Lemma step_at_AlignDone (l : list Phase) :
  NoDup step_labels → completes generateAlignmentReports = true →
  step completes {| state_ := AlignDone; phasesRun := l |}
  = (Returned AlignmentReportsDone,
     {| state_ := AlignmentReportsDone;
        phasesRun := l ++ [generateAlignmentReports] |}).
Proof.
  intros Hd Hok. unfold step_labels in Hd. distinct Hd.
  rewrite step_unfold, Hok. compare_states.
Qed.

Lemma step_at_AlignmentReportsDone (l : list Phase) :
  NoDup step_labels → completes generateBam = true →
  step completes {| state_ := AlignmentReportsDone; phasesRun := l |}
  = (Returned BamDone, {| state_ := BamDone; phasesRun := l ++ [generateBam] |}).
Proof.
  intros Hd Hok. unfold step_labels in Hd. distinct Hd.
  rewrite step_unfold, Hok. compare_states.
Qed.

Lemma step_at_Finish (l : list Phase) :
  NoDup step_labels →
  step completes {| state_ := Finish; phasesRun := l |}
  = (Returned Finish, {| state_ := Finish; phasesRun := l |}).
Proof.
  intros Hd. unfold step_labels in Hd. distinct Hd.
  rewrite step_unfold. compare_states.
Qed.

(** In the state [BamDone] no call of [step] does anything: it is the
    [Finish] case when the two enumerators have one value, and the [default]
    case, whose assertion fails, when they have not. *)
Lemma step_at_BamDone (l : list Phase) :
  labels_distinct →
  step completes {| state_ := BamDone; phasesRun := l |}
  = (if bool_decide (BamDone = Finish) then Returned BamDone else Terminated,
     {| state_ := BamDone; phasesRun := l |}).
Proof.
  intros [_ Hd]. unfold rewind_labels in Hd. distinct Hd.
  rewrite step_unfold.
  case_bool_decide as HFinish; compare_states.
Qed.

(** A state that [step] leaves as it is, is none of the three states in
    which [step] runs a phase. *)
Lemma stays_not_working (s : Z) :
  stays completes s → s ≠ Start ∧ s ≠ AlignDone ∧ s ≠ AlignmentReportsDone.
Proof.
  intros Hstays. specialize (Hstays []). rewrite step_unfold in Hstays.
  repeat split; intros ->; revert Hstays; rewrite ?Z.eqb_refl;
    compare_states;
    repeat match goal with |- context [completes ?p] => destruct (completes p) end;
    intros [=].
Qed.

(** No call of [step] leads from [BamDone] to a different state [Finish] in
    which the workflow then rests. *)
Lemma no_step_from_BamDone_to_Finish :
  stays completes Finish → ¬ advances completes BamDone Finish.
Proof.
  intros (HStart & HAlignDone & HReports)%stays_not_working [Hne Hadv].
  destruct (Hadv []) as [l' Hstep]. rewrite step_unfold in Hstep.
  revert Hstep. compare_states;
    repeat match goal with |- context [completes ?p] => destruct (completes p) end;
    intros [=]; congruence.
Qed.

(** Three calls in a row from the constructed object. *)
Lemma steps_3 :
  NoDup step_labels → (∀ p, completes p = true) →
  steps completes 3 AlignWorkflow_ctor
  = (Returned BamDone,
     {| state_ := BamDone;
        phasesRun := [findMatches; generateAlignmentReports; generateBam] |}).
Proof.
  intros Hd Hok. unfold steps, AlignWorkflow_ctor.
  unfold mbind at 1, Method_bind at 1. rewrite step_at_Start by auto.
  unfold mbind at 1, Method_bind at 1. rewrite step_at_AlignDone by auto.
  unfold mbind at 1, Method_bind at 1. rewrite step_at_AlignmentReportsDone by auto.
  reflexivity.
Qed.

(** [run] returns, in the state [BamDone], each phase run once and in
    order. *)
Lemma run_returns :
  NoDup step_labels → (∀ p, completes p = true) →
  run completes AlignWorkflow_ctor
  = (Returned (),
     {| state_ := BamDone;
        phasesRun := [findMatches; generateAlignmentReports; generateBam] |}).
Proof.
  intros Hd Hok.
  unfold run, AlignWorkflow_ctor, state_is, read_state_, ISAAC_ASSERT_MSG.
  unfold mbind, Method_bind, mret, Method_ret. cbn [state_ phasesRun].
  rewrite Z.eqb_refl, step_at_Start by auto.
  cbn [state_ phasesRun]. rewrite Z.eqb_refl, step_at_AlignDone by auto.
  cbn [state_ phasesRun]. rewrite Z.eqb_refl, step_at_AlignmentReportsDone by auto.
  cbn [state_ phasesRun]. rewrite Z.eqb_refl. reflexivity.
Qed.

(** What [cleanupIntermediary] does in the state [run] ends in. *)
Lemma cleanupIntermediary_at_BamDone (l : list Phase) :
  labels_distinct → completes cleanupBins = true →
  cleanupIntermediary completes {| state_ := BamDone; phasesRun := l |}
  = if bool_decide (BamDone = Finish)
    then (Returned (), {| state_ := BamDone; phasesRun := l ++ [cleanupBins] |})
    else (Terminated, {| state_ := BamDone; phasesRun := l |}).
Proof.
  intros [_ Hd] Hok. unfold rewind_labels in Hd. distinct Hd.
  unfold cleanupIntermediary, call, read_state_, ISAAC_ASSERT_MSG, terminate.
  unfold mbind, Method_bind. cbn [state_ phasesRun]. rewrite Hok.
  case_bool_decide as HFinish; compare_states.
Qed.

End Step.

(** C3, as the code has it.  With every phase function returning, a call of
    [step] takes the workflow from Start to AlignDone, from AlignDone to
    AlignmentReportsDone and from AlignmentReportsDone to BamDone, running
    the phase of the state it starts in and nothing else; three calls from
    the constructed object end in BamDone.  A call in the state Finish
    returns Finish and changes nothing.  A call in BamDone never moves the
    workflow: it is that same call when Finish and BamDone are one
    enumerator value, and it fails the assertion of the default case when
    they are not. *)
Theorem step_chain_ends_at_BamDone
    {E : StateEnum} (completes : Phase → bool) (l : list Phase) :
  labels_distinct →
  (∀ p, completes p = true) →
  step completes {| state_ := Start; phasesRun := l |}
    = (Returned AlignDone,
       {| state_ := AlignDone; phasesRun := l ++ [findMatches] |}) ∧
  step completes {| state_ := AlignDone; phasesRun := l |}
    = (Returned AlignmentReportsDone,
       {| state_ := AlignmentReportsDone;
          phasesRun := l ++ [generateAlignmentReports] |}) ∧
  step completes {| state_ := AlignmentReportsDone; phasesRun := l |}
    = (Returned BamDone,
       {| state_ := BamDone; phasesRun := l ++ [generateBam] |}) ∧
  step completes {| state_ := Finish; phasesRun := l |}
    = (Returned Finish, {| state_ := Finish; phasesRun := l |}) ∧
  step completes {| state_ := BamDone; phasesRun := l |}
    = (if bool_decide (BamDone = Finish) then Returned BamDone else Terminated,
       {| state_ := BamDone; phasesRun := l |}) ∧
  steps completes 3 AlignWorkflow_ctor
    = (Returned BamDone,
       {| state_ := BamDone;
          phasesRun := [findMatches; generateAlignmentReports; generateBam] |}).
Proof.
  intros Hd Hok. pose proof Hd as [Hstep _].
  split; [apply step_at_Start; auto |].
  split; [apply step_at_AlignDone; auto |].
  split; [apply step_at_AlignmentReportsDone; auto |].
  split; [apply step_at_Finish; auto |].
  split; [apply step_at_BamDone; auto |].
  apply steps_3; auto.
Qed.

Lemma finish_is_BamDone_distinct : @labels_distinct finish_is_BamDone.
Proof.
  split; apply (bool_decide_unpack _); vm_compute; exact I.
Qed.

Lemma finish_after_BamDone_distinct : @labels_distinct finish_after_BamDone.
Proof.
  split; apply (bool_decide_unpack _); vm_compute; exact I.
Qed.

(** The chain with Finish naming the value of BamDone. *)
Lemma step_chain_ends_at_BamDone_witness :
  @step finish_is_BamDone all_complete {| state_ := 0; phasesRun := [] |}
    = (Returned 1, {| state_ := 1; phasesRun := [findMatches] |}) ∧
  @step finish_is_BamDone all_complete {| state_ := 1; phasesRun := [] |}
    = (Returned 2, {| state_ := 2; phasesRun := [generateAlignmentReports] |}) ∧
  @step finish_is_BamDone all_complete {| state_ := 2; phasesRun := [] |}
    = (Returned 3, {| state_ := 3; phasesRun := [generateBam] |}) ∧
  @step finish_is_BamDone all_complete {| state_ := 3; phasesRun := [] |}
    = (Returned 3, {| state_ := 3; phasesRun := [] |}) ∧
  @step finish_is_BamDone all_complete {| state_ := 3; phasesRun := [] |}
    = (Returned 3, {| state_ := 3; phasesRun := [] |}) ∧
  @steps finish_is_BamDone all_complete 3 (@AlignWorkflow_ctor finish_is_BamDone)
    = (Returned 3,
       {| state_ := 3;
          phasesRun := [findMatches; generateAlignmentReports; generateBam] |}).
Proof.
  apply (@step_chain_ends_at_BamDone finish_is_BamDone all_complete []).
  - exact finish_is_BamDone_distinct.
  - intros p. reflexivity.
Defined.

(** C3, as the specification has it, holds of no declaration of the enum,
    whatever the phases do.  On the two declarations above: with Finish the
    value of BamDone the fourth call leaves the workflow where the third
    took it, and with Finish a fifth value the fourth call is terminated by
    the assertion of the default case, in the state BamDone. *)
Lemma no_five_state_chain :
  (¬ ∃ (E : StateEnum) (completes : Phase → bool), @five_state_chain E completes) ∧
  @steps finish_is_BamDone all_complete 4 (@AlignWorkflow_ctor finish_is_BamDone)
    = @steps finish_is_BamDone all_complete 3 (@AlignWorkflow_ctor finish_is_BamDone) ∧
  @steps finish_after_BamDone all_complete 4 (@AlignWorkflow_ctor finish_after_BamDone)
    = (Terminated,
       {| state_ := 3;
          phasesRun := [findMatches; generateAlignmentReports; generateBam] |}).
Proof.
  split.
  - intros (E & completes & _ & _ & _ & Hadv & Hstays).
    exact (no_step_from_BamDone_to_Finish completes Hstays Hadv).
  - split; vm_compute; reflexivity.
Qed.

Section Rewind.
Context {E : StateEnum}.
Variable NDEBUG : bool.

(** The states [progress] knows are the four that [step] visits. *)
Lemma progress_cases (s : Z) (n : nat) :
  progress s = Some n →
  (s = Start ∧ n = 0%nat) ∨ (s = AlignDone ∧ n = 1%nat) ∨
  (s = AlignmentReportsDone ∧ n = 2%nat) ∨ (s = BamDone ∧ n = 3%nat).
Proof.
  unfold progress. compare_states; intros [=]; subst; auto.
Qed.

(** [progress] counts the calls of [step] made since construction. *)
Lemma progress_counts_steps (completes : Phase → bool) (n : nat) :
  labels_distinct → (∀ p, completes p = true) → (n ≤ 3)%nat →
  ∃ w, steps completes n AlignWorkflow_ctor = (Returned (state_ w), w) ∧
       progress (state_ w) = Some n.
Proof.
  intros [Hstep Hrewind] Hok Hn.
  unfold rewind_labels in Hrewind. distinct Hrewind.
  assert (Hcases : n = 0%nat ∨ n = 1%nat ∨ n = 2%nat ∨ n = 3%nat) by lia.
  destruct Hcases as [-> | [-> | [-> | ->]]];
    unfold steps, AlignWorkflow_ctor; eexists;
    repeat (unfold mbind at 1, Method_bind at 1;
            rewrite ?step_at_Start, ?step_at_AlignDone,
              ?step_at_AlignmentReportsDone by auto);
    (split; [reflexivity |]); cbn [state_]; unfold progress; compare_states.
Qed.

Lemma rewind_to_Last (s : Z) (l : list Phase) :
  rewind NDEBUG Last {| state_ := s; phasesRun := l |}
  = (Returned s, {| state_ := s; phasesRun := l |}).
Proof.
  unfold rewind, read_state_. unfold mbind, Method_bind. cbn [state_ phasesRun].
  rewrite Z.eqb_refl. reflexivity.
Qed.

Lemma rewind_to_Start (s : Z) (l : list Phase) :
  NoDup rewind_labels →
  rewind NDEBUG Start {| state_ := s; phasesRun := l |}
  = (Returned s, {| state_ := Start; phasesRun := l |}).
Proof.
  intros Hd. unfold rewind_labels in Hd. distinct Hd.
  unfold rewind, read_state_, write_state_. unfold mbind, Method_bind.
  cbn [state_ phasesRun]. compare_states.
Qed.

(** Unfolding of the body of [rewind] on an explicit object. *)
Ltac run_rewind :=
  unfold rewind, state_is, when_, read_state_, write_state_, BOOST_THROW_EXCEPTION;
  unfold mbind, Method_bind, mret, Method_ret; cbn;
  repeat match goal with
         | |- context [Z.eqb ?x ?y] =>
             destruct (Z.eqb_spec x y); try congruence; cbn
         end;
  try reflexivity.

Lemma rewind_not_ahead (current to : Z) (l : list Phase) (i j : nat) :
  NoDup rewind_labels →
  progress current = Some i → progress to = Some j → (j ≤ i)%nat →
  rewind NDEBUG to {| state_ := current; phasesRun := l |}
  = (Returned current, {| state_ := to; phasesRun := l |}).
Proof.
  intros Hd Hcurrent Hto Hle. unfold rewind_labels in Hd. distinct Hd.
  apply progress_cases in Hcurrent as [[-> ->] | [[-> ->] | [[-> ->] | [-> ->]]]];
    apply progress_cases in Hto as [[-> ->] | [[-> ->] | [[-> ->] | [-> ->]]]];
    try lia; run_rewind.
Qed.

Lemma rewind_ahead (current to : Z) (l : list Phase) (i j : nat) :
  NoDup rewind_labels →
  progress current = Some i → progress to = Some j → (i < j)%nat →
  ∃ message,
    rewind NDEBUG to {| state_ := current; phasesRun := l |}
    = (Thrown (PreConditionException message),
       {| state_ := current; phasesRun := l |}).
Proof.
  intros Hd Hcurrent Hto Hlt. unfold rewind_labels in Hd. distinct Hd.
  apply progress_cases in Hcurrent as [[-> ->] | [[-> ->] | [[-> ->] | [-> ->]]]];
    apply progress_cases in Hto as [[-> ->] | [[-> ->] | [[-> ->] | [-> ->]]]];
    try lia; eexists; run_rewind.
Qed.

End Rewind.

(** C4, as the code has it.  From a state of the workflow, [rewind] returns
    the state held before the call and
    - for the target Last leaves the state as it is,
    - for the target Start, or a target the workflow has reached (one not
      ahead of the current state), sets the state to the target;
    for a target ahead of the current state it throws a
    PreConditionException and leaves the state as it is. *)
Theorem rewind_outcome
    {E : StateEnum} (NDEBUG : bool) (current to : Z) (l : list Phase) (i j : nat) :
  NoDup rewind_labels →
  progress current = Some i →
  progress to = Some j →
  rewind NDEBUG Last {| state_ := current; phasesRun := l |}
    = (Returned current, {| state_ := current; phasesRun := l |}) ∧
  rewind NDEBUG Start {| state_ := current; phasesRun := l |}
    = (Returned current, {| state_ := Start; phasesRun := l |}) ∧
  ((j ≤ i)%nat →
   rewind NDEBUG to {| state_ := current; phasesRun := l |}
     = (Returned current, {| state_ := to; phasesRun := l |})) ∧
  ((i < j)%nat →
   ∃ message,
     rewind NDEBUG to {| state_ := current; phasesRun := l |}
     = (Thrown (PreConditionException message),
        {| state_ := current; phasesRun := l |})).
Proof.
  intros Hd Hcurrent Hto.
  split; [apply rewind_to_Last |].
  split; [apply rewind_to_Start; exact Hd |].
  split; intros Horder.
  - exact (rewind_not_ahead NDEBUG current to l i j Hd Hcurrent Hto Horder).
  - exact (rewind_ahead NDEBUG current to l i j Hd Hcurrent Hto Horder).
Qed.

(** From BamDone back to AlignDone, and from AlignDone ahead to BamDone. *)
Lemma rewind_outcome_witness :
  @rewind finish_is_BamDone false (-1) {| state_ := 3; phasesRun := [] |}
    = (Returned 3, {| state_ := 3; phasesRun := [] |}) ∧
  @rewind finish_is_BamDone false 0 {| state_ := 3; phasesRun := [] |}
    = (Returned 3, {| state_ := 0; phasesRun := [] |}) ∧
  @rewind finish_is_BamDone false 1 {| state_ := 3; phasesRun := [] |}
    = (Returned 3, {| state_ := 1; phasesRun := [] |}) ∧
  ∃ message,
    @rewind finish_is_BamDone false 3 {| state_ := 1; phasesRun := [] |}
    = (Thrown (PreConditionException message), {| state_ := 1; phasesRun := [] |}).
Proof.
  pose proof finish_is_BamDone_distinct as [_ Hd].
  destruct (@rewind_outcome finish_is_BamDone false 3 1 [] 3 1 Hd eq_refl eq_refl)
    as (HLast & HStart & Hback & _).
  destruct (@rewind_outcome finish_is_BamDone false 1 3 [] 1 3 Hd eq_refl eq_refl)
    as (_ & _ & _ & Hahead).
  split; [exact HLast |].
  split; [exact HStart |].
  split; [apply Hback; lia | apply Hahead; lia].
Defined.

(** C4, as the specification has it, fails for the target Last: whatever the
    declaration of the enum, a rewind to Last from Start does not set the
    state to Last; the state is still Start (0, Last being -1). *)
Lemma rewind_to_Last_keeps_state :
  (¬ ∃ (E : StateEnum) (NDEBUG : bool),
       NoDup (@rewind_labels E) ∧
       @rewind E NDEBUG Last {| state_ := Start; phasesRun := [] |}
       = (Returned Start, {| state_ := Last; phasesRun := [] |})) ∧
  @rewind finish_is_BamDone false (-1) {| state_ := 0; phasesRun := [] |}
    = (Returned 0, {| state_ := 0; phasesRun := [] |}).
Proof.
  split; [| vm_compute; reflexivity].
  intros (E & NDEBUG & Hd & Hrewind).
  rewrite rewind_to_Last in Hrewind.
  unfold rewind_labels in Hd. distinct Hd.
  congruence.
Qed.

(** *** Running, cleaning up and resuming *)

Section Run.
Context {E : StateEnum}.
Variable completes : Phase → bool.

(** One step of evaluation of a sequence of calls. *)
Ltac bind := unfold mbind at 1, Method_bind at 1.

Lemma state_is_eq (s : Z) (l : list Phase) :
  state_is s {| state_ := s; phasesRun := l |}
  = (Returned true, {| state_ := s; phasesRun := l |}).
Proof.
  unfold state_is, read_state_, mbind, Method_bind, mret, Method_ret.
  cbn [state_]. rewrite Z.eqb_refl. reflexivity.
Qed.

(** X22.  What [run] does to a freshly constructed workflow, whatever the
    phases do: it runs the phases in order up to the first that throws,
    lets that exception through, and leaves [state_] at the state reached by
    the phases that completed (Start, AlignDone, AlignmentReportsDone);
    when all three complete it returns in the state BamDone.  No assertion
    of [run] fails. *)
Theorem run_outcome :
  NoDup step_labels →
  run completes AlignWorkflow_ctor =
    if negb (completes findMatches) then
      (Thrown (PhaseException findMatches), {| state_ := Start; phasesRun := [] |})
    else if negb (completes generateAlignmentReports) then
      (Thrown (PhaseException generateAlignmentReports),
       {| state_ := AlignDone; phasesRun := [findMatches] |})
    else if negb (completes generateBam) then
      (Thrown (PhaseException generateBam),
       {| state_ := AlignmentReportsDone;
          phasesRun := [findMatches; generateAlignmentReports] |})
    else
      (Returned (),
       {| state_ := BamDone;
          phasesRun := [findMatches; generateAlignmentReports; generateBam] |}).
Proof.
  intros Hd. unfold step_labels in Hd. distinct Hd.
  unfold run, AlignWorkflow_ctor.
  bind. rewrite state_is_eq. bind. cbn [ISAAC_ASSERT_MSG]. unfold mret at 1, Method_ret at 1.
  bind. rewrite step_unfold, Z.eqb_refl.
  destruct (completes findMatches); cbn [negb]; [| reflexivity].
  bind. rewrite state_is_eq. bind. cbn [ISAAC_ASSERT_MSG]. unfold mret at 1, Method_ret at 1.
  bind. rewrite step_unfold, Z.eqb_refl.
  destruct (Z.eqb_spec AlignDone Start); [congruence |].
  destruct (completes generateAlignmentReports); cbn [negb]; [| reflexivity].
  bind. rewrite state_is_eq. bind. cbn [ISAAC_ASSERT_MSG]. unfold mret at 1, Method_ret at 1.
  bind. rewrite step_unfold, Z.eqb_refl.
  destruct (Z.eqb_spec AlignmentReportsDone Start); [congruence |].
  destruct (Z.eqb_spec AlignmentReportsDone AlignDone); [congruence |].
  destruct (completes generateBam); cbn [negb]; [| reflexivity].
  bind. rewrite state_is_eq. reflexivity.
Qed.

(** X23.  [run] is only for a workflow in the Start state: in any other
    state its first assertion terminates the process before a phase is run
    or the state is touched. *)
Theorem run_outside_Start (w : AlignWorkflow) :
  state_ w ≠ Start → run completes w = (Terminated, w).
Proof.
  intros Hne. unfold run, state_is, read_state_.
  unfold mbind, Method_bind, mret, Method_ret.
  destruct (Z.eqb_spec Start (state_ w)); [congruence | reflexivity].
Qed.

(** X24.  [cleanupIntermediary] never changes [state_]; it calls
    [cleanupBins] in the Finish state and in no other; and its assertion
    terminates the process exactly in the states that are none of Start,
    AlignDone, AlignmentReportsDone and Finish. *)
Theorem cleanupIntermediary_keeps_state (s : Z) (l : list Phase) :
  state_ (snd (cleanupIntermediary completes {| state_ := s; phasesRun := l |})) = s ∧
  phasesRun (snd (cleanupIntermediary completes {| state_ := s; phasesRun := l |}))
    = (if (s =? Finish) && completes cleanupBins then l ++ [cleanupBins] else l) ∧
  (fst (cleanupIntermediary completes {| state_ := s; phasesRun := l |}) = Terminated
   ↔ s ∉ step_labels).
Proof.
  unfold cleanupIntermediary, call, read_state_, ISAAC_ASSERT_MSG, terminate.
  unfold mbind, Method_bind, mret, Method_ret. cbn [state_ phasesRun].
  unfold step_labels. rewrite !not_elem_of_cons.
  destruct (Z.eqb_spec s Finish).
  { destruct (completes cleanupBins); cbn;
      (split; [reflexivity |]); (split; [reflexivity |]);
      (split; [discriminate | tauto]). }
  cbn [andb].
  destruct (Z.eqb_spec s AlignmentReportsDone);
    [cbn; split; [reflexivity | split; [reflexivity | split; [discriminate | tauto]]] |].
  destruct (Z.eqb_spec s AlignDone);
    [cbn; split; [reflexivity | split; [reflexivity | split; [discriminate | tauto]]] |].
  destruct (Z.eqb_spec s Start);
    [cbn; split; [reflexivity | split; [reflexivity | split; [discriminate | tauto]]] |].
  cbn. split; [reflexivity |]. split; [reflexivity |].
  split; [intros _ | reflexivity].
  repeat split; try assumption. apply not_elem_of_nil.
Qed.

End Run.

(** The reports phase fails after the matches were found. *)
Lemma run_outcome_witness :
  @run finish_is_BamDone reports_fail (@AlignWorkflow_ctor finish_is_BamDone)
  = (Thrown (PhaseException generateAlignmentReports),
     {| state_ := 1; phasesRun := [findMatches] |}).
Proof.
  apply (@run_outcome finish_is_BamDone reports_fail).
  apply finish_is_BamDone_distinct.
Defined.

(** A workflow that was rewound to AlignmentReportsDone is not one to [run]. *)
Lemma run_outside_Start_witness :
  @run finish_is_BamDone all_complete {| state_ := 2; phasesRun := [] |}
  = (Terminated, {| state_ := 2; phasesRun := [] |}).
Proof.
  apply (@run_outside_Start finish_is_BamDone all_complete).
  vm_compute. congruence.
Defined.

Section Resume.
Context {E : StateEnum}.
Variable completes : Phase → bool.
Variable NDEBUG : bool.

Ltac bind := unfold mbind at 1, Method_bind at 1.

(** Unfolding of [rewind] for any target, the default case included. *)
Ltac run_rewind_any :=
  unfold rewind, Workflow.assert, ISAAC_ASSERT_MSG, terminate, state_is, when_,
    read_state_, write_state_, BOOST_THROW_EXCEPTION;
  unfold mbind, Method_bind, mret, Method_ret; cbn;
  repeat match goal with
         | |- context [Z.eqb ?x ?y] =>
             destruct (Z.eqb_spec x y); try congruence; cbn
         end.

Lemma progress_Start : progress Start = Some 0%nat.
Proof. unfold progress. rewrite Z.eqb_refl. reflexivity. Qed.

Lemma progress_AlignDone : NoDup rewind_labels → progress AlignDone = Some 1%nat.
Proof.
  intros Hd. unfold rewind_labels in Hd. distinct Hd. unfold progress. compare_states.
Qed.

Lemma progress_AlignmentReportsDone :
  NoDup rewind_labels → progress AlignmentReportsDone = Some 2%nat.
Proof.
  intros Hd. unfold rewind_labels in Hd. distinct Hd. unfold progress. compare_states.
Qed.

Lemma progress_BamDone : NoDup rewind_labels → progress BamDone = Some 3%nat.
Proof.
  intros Hd. unfold rewind_labels in Hd. distinct Hd. unfold progress. compare_states.
Qed.

(** X25.  [rewind] never moves the workflow forward and never runs a phase:
    whatever the target (a state, Last, or any other value of the enum) and
    however the call ends, the state after it is one the workflow had
    reached, at most as far along as the state before. *)
Theorem rewind_never_advances (current to : Z) (l : list Phase) (i : nat) :
  NoDup rewind_labels →
  progress current = Some i →
  phasesRun (snd (rewind NDEBUG to {| state_ := current; phasesRun := l |})) = l ∧
  ∃ j, progress (state_ (snd (rewind NDEBUG to {| state_ := current; phasesRun := l |})))
       = Some j ∧ (j ≤ i)%nat.
Proof.
  intros Hd Hcurrent.
  pose proof progress_Start as HpS.
  pose proof (progress_AlignDone Hd) as HpA.
  pose proof (progress_AlignmentReportsDone Hd) as HpR.
  pose proof (progress_BamDone Hd) as HpB.
  unfold rewind_labels in Hd. distinct Hd.
  apply progress_cases in Hcurrent as [[-> ->] | [[-> ->] | [[-> ->] | [-> ->]]]];
    run_rewind_any; try destruct NDEBUG; cbn;
    (split; [reflexivity |]); eauto with lia.
Qed.

(** X26.  A rewound workflow can be resumed: after a rewind to a state the
    workflow had reached, as many calls of [step] as phases remain bring it
    to BamDone, running exactly the remaining phases in order (with every
    phase function returning). *)
Theorem rewind_then_steps (current to : Z) (l : list Phase) (i j : nat) :
  labels_distinct →
  (∀ p, completes p = true) →
  progress current = Some i →
  progress to = Some j →
  (j ≤ i)%nat →
  steps completes (3 - j)
    (snd (rewind NDEBUG to {| state_ := current; phasesRun := l |}))
  = (Returned BamDone,
     {| state_ := BamDone;
        phasesRun := l ++ drop j [findMatches; generateAlignmentReports; generateBam] |}).
Proof.
  intros [Hstep Hrewind] Hok Hcurrent Hto Hle.
  rewrite (rewind_not_ahead NDEBUG current to l i j Hrewind Hcurrent Hto Hle).
  cbn [snd].
  apply progress_cases in Hto as [[-> ->] | [[-> ->] | [[-> ->] | [-> ->]]]];
    cbn [Nat.sub drop steps].
  - bind. rewrite step_at_Start by auto.
    bind. rewrite step_at_AlignDone by auto.
    bind. rewrite step_at_AlignmentReportsDone by auto.
    unfold read_state_. cbn [state_]. rewrite <- !app_assoc. reflexivity.
  - bind. rewrite step_at_AlignDone by auto.
    bind. rewrite step_at_AlignmentReportsDone by auto.
    unfold read_state_. cbn [state_]. rewrite <- !app_assoc. reflexivity.
  - bind. rewrite step_at_AlignmentReportsDone by auto.
    reflexivity.
  - unfold read_state_. cbn [state_]. rewrite app_nil_r. reflexivity.
Qed.

End Resume.

(** A rewind ahead, from AlignmentReportsDone to BamDone, throws and leaves
    the workflow where it was. *)
Lemma rewind_never_advances_witness :
  phasesRun (snd (@rewind finish_is_BamDone false 3
                    {| state_ := 2;
                       phasesRun := [findMatches; generateAlignmentReports] |}))
    = [findMatches; generateAlignmentReports] ∧
  ∃ j, @progress finish_is_BamDone
         (state_ (snd (@rewind finish_is_BamDone false 3
                         {| state_ := 2;
                            phasesRun := [findMatches; generateAlignmentReports] |})))
       = Some j ∧ (j ≤ 2)%nat.
Proof.
  apply (@rewind_never_advances finish_is_BamDone false 2 3
           [findMatches; generateAlignmentReports] 2).
  - apply finish_is_BamDone_distinct.
  - reflexivity.
Defined.

(** After the whole run, back to AlignDone: the reports and the BAM files
    are produced again. *)
Lemma rewind_then_steps_witness :
  @steps finish_is_BamDone all_complete 2
    (snd (@rewind finish_is_BamDone false 1
            {| state_ := 3;
               phasesRun := [findMatches; generateAlignmentReports; generateBam] |}))
  = (Returned 3,
     {| state_ := 3;
        phasesRun := [findMatches; generateAlignmentReports; generateBam;
                      generateAlignmentReports; generateBam] |}).
Proof.
  apply (@rewind_then_steps finish_is_BamDone all_complete false 3 1
           [findMatches; generateAlignmentReports; generateBam] 3 1).
  - apply finish_is_BamDone_distinct.
  - intros p. reflexivity.
  - reflexivity.
  - reflexivity.
  - lia.
Defined.

End WorkflowFacts.
